(** * CausalNex/Preprocessing.py: bin-count advisor, discretizer, label encoder

    A shallow embedding of [FeatureDiscretizationAnalyzer.suggest_bin_count]
    and of the [Preprocessing] class ([discretize_feature],
    [batch_discretize], [label_encode_non_numeric]).

    The Python source is a thin layer over numpy, pandas and scikit-learn.
    Each library routine the source calls is given a definition of its own,
    named after the routine, so that the functions of the repository read
    line for line like the source.

    Numbers.  [suggest_bin_count] is decided by IEEE-754 special values
    (0/0, NaN, [int(nan)]), so the advisor is modelled on binary64 floats
    ([spec_float] with [prec = 53], [emax = 1024]).  In the discretizer a
    column entry is the rational number a finite float denotes and the
    missing value (pandas' NaN) is [None]; comparisons against bin edges
    are exact, and the float arithmetic that produces the edges is a
    parameter ([Discretizer.arith]) with two instances, [binary64] and
    [exact].  What belongs to a library and depends on its version or on
    randomness (the k-means fit, the quantile interpolation, [astype(str)]
    of a missing entry) is a parameter as well.  Numeric columns are of
    dtype float64 throughout; an int64 column, whose range [max - min]
    wraps around in numpy, is outside the model. *)

From Stdlib Require Import ZArith QArith Qabs Qround Bool List Lia Lqa.
From Stdlib Require Import Floats.SpecFloat Sorting.Sorted.
From stdpp Require Import base option list strings gmap.

Set Default Proof Using "Type".
Local Open Scope Z_scope.

(** ** Python results: a value or a raised exception *)

Inductive exn : Set :=
  | ValueError
  | OverflowError
  | KeyError
  | IndexError.

Inductive result (A : Type) : Type :=
  | Ok (a : A)
  | Raise (e : exn).
Arguments Ok {A} a.
Arguments Raise {A} e.

Definition rbind {A B} (k : A -> result B) (r : result A) : result B :=
  match r with
  | Ok a => k a
  | Raise e => Raise e
  end.

#[global] Instance result_ret : MRet result := fun _ a => Ok a.
#[global] Instance result_bind : MBind result := fun _ _ k r => rbind k r.

Definition raises {A} (r : result A) : Prop := exists e, r = Raise e.

(** ** Sorting (numpy's [sort], as used by percentiles, medians and
    [np.unique]): an insertion sort over a boolean order *)

Fixpoint insert_by {A} (le : A -> A -> bool) (x : A) (l : list A) : list A :=
  match l with
  | [] => [x]
  | y :: r => if le x y then x :: y :: r else y :: insert_by le x r
  end.

Definition sort_by {A} (le : A -> A -> bool) (l : list A) : list A :=
  fold_right (insert_by le) [] l.

(** ** BinCountAdvisor: [FeatureDiscretizationAnalyzer.suggest_bin_count] *)

Module BinCountAdvisor.

Abbreviation float := spec_float.

Definition prec : Z := 53.
Definition emax : Z := 1024.

Definition fadd : float -> float -> float := SFadd prec emax.
Definition fsub : float -> float -> float := SFsub prec emax.
Definition fmul : float -> float -> float := SFmul prec emax.
Definition fdiv : float -> float -> float := SFdiv prec emax.
Definition fsqrt : float -> float := SFsqrt prec emax.
Definition fltb : float -> float -> bool := SFltb.
Definition fleb : float -> float -> bool := SFleb.

(** An integer as a float (round to nearest even; exact below 2^53). *)
Definition of_Z (z : Z) : float := binary_normalize prec emax z 0 false.

Definition is_nan (x : float) : bool :=
  match x with S754_nan => true | _ => false end.

(** The integer a finite float stands for when it is integral, and its
    ceiling otherwise: [m * 2^e] rounded up. *)
Definition ceil_finite (s : bool) (m : positive) (e : Z) : Z :=
  let sm := cond_Zopp s (Zpos m) in
  if 0 <=? e then sm * 2 ^ e else - ((- sm) / 2 ^ (- e)).

(** [np.ceil]: NaN, infinities and zeros are returned as they are. *)
Definition np_ceil (x : float) : float :=
  match x with
  | S754_finite s m e => binary_normalize prec emax (ceil_finite s m e) 0 s
  | _ => x
  end.

(** Python's [int(x)] on a float: truncation toward zero; [int(nan)] raises
    ValueError and [int(inf)] raises OverflowError. *)
Definition py_int (x : float) : result Z :=
  match x with
  | S754_nan => Raise ValueError
  | S754_infinity _ => Raise OverflowError
  | S754_zero _ => Ok 0
  | S754_finite s m e =>
      Ok (if 0 <=? e then cond_Zopp s (Zpos m * 2 ^ e)
          else cond_Zopp s (Zpos m / 2 ^ (- e)))
  end.

(** pandas reductions skip missing entries ([skipna=True]). *)
Definition notna (xs : list float) : list float :=
  List.filter (fun x => negb (is_nan x)) xs.

Definition series_sum (xs : list float) : float :=
  fold_left fadd xs (S754_zero false).

(** [Series.max()] and [Series.min()]; NaN on an empty series. *)
Definition series_max (xs : list float) : float :=
  match notna xs with
  | [] => S754_nan
  | x :: r => fold_left (fun a b => if fltb a b then b else a) r x
  end.

Definition series_min (xs : list float) : float :=
  match notna xs with
  | [] => S754_nan
  | x :: r => fold_left (fun a b => if fltb b a then b else a) r x
  end.

(** [Series.std()]: sample standard deviation ([ddof = 1]), as pandas'
    [nanops.nanvar] computes it: with [count <= ddof] both the count and
    the divisor become NaN. *)
Definition series_std (xs : list float) : float :=
  let values := notna xs in
  let cnt := Z.of_nat (length values) in
  let count := if cnt <=? 1 then S754_nan else of_Z cnt in
  let d := if cnt <=? 1 then S754_nan else of_Z (cnt - 1) in
  let avg := fdiv (series_sum values) count in
  let sqr := map (fun v => let dv := fsub avg v in fmul dv dv) values in
  fsqrt (fdiv (series_sum sqr) d).

(** [np.percentile(a, q)] with the default linear method: the virtual index
    [(n - 1) * q / 100] is split into its floor and a fraction [gamma], and
    the two neighbours are interpolated.  A NaN in the data gives NaN. *)
Definition lerp (a b t : float) : float :=
  let diff_b_a := fsub b a in
  if fleb (fdiv (of_Z 1) (of_Z 2)) t
  then fsub b (fmul diff_b_a (fsub (of_Z 1) t))
  else fadd a (fmul diff_b_a t).

Definition floor_index (x : float) : Z :=
  match x with
  | S754_finite false m e =>
      if 0 <=? e then Zpos m * 2 ^ e else Zpos m / 2 ^ (- e)
  | _ => 0
  end.

Definition np_percentile (xs : list float) (q : Z) : float :=
  if existsb is_nan xs then S754_nan
  else
    let arr := sort_by fleb xs in
    let n := Z.of_nat (length arr) in
    let virtual := fmul (of_Z (n - 1)) (fdiv (of_Z q) (of_Z 100)) in
    let previous := floor_index virtual in
    let next := Z.min (previous + 1) (n - 1) in
    let gamma := fsub virtual (of_Z previous) in
    lerp (nth (Z.to_nat previous) arr S754_nan)
         (nth (Z.to_nat next) arr S754_nan) gamma.

(** [np.median] of a list of Python ints: the middle element, or the mean of
    the two middle elements; NaN for the empty list. *)
Definition np_median (xs : list Z) : float :=
  let arr := sort_by Z.leb xs in
  let n := length arr in
  match n with
  | O => S754_nan
  | _ =>
      if Nat.even n
      then fdiv (fadd (of_Z (nth (n / 2 - 1) arr 0))
                      (of_Z (nth (n / 2) arr 0)))
                (of_Z 2)
      else of_Z (nth (n / 2) arr 0)
  end.

Section SuggestBinCount.

(** The two transcendental library functions of the source, [np.log2] and
    the float power behind [n ** (1/3)], are parameters of the model. *)
Variable np_log2 : float -> float.
Variable py_pow : float -> float -> float.

Definition suggest_bin_count (data_col : list float) : result Z :=
  let n := of_Z (Z.of_nat (length data_col)) in
  (* Sturges' rule *)
  sturges ← py_int (np_ceil (fadd (np_log2 n) (of_Z 1)));
  (* Scott's rule *)
  let h_scott :=
    fdiv (fmul (fdiv (of_Z 7) (of_Z 2)) (series_std data_col))
         (py_pow n (fdiv (of_Z 1) (of_Z 3))) in
  scott_bins ←
    py_int (np_ceil (fdiv (fsub (series_max data_col) (series_min data_col))
                          h_scott));
  (* Freedman-Diaconis rule *)
  let q75 := np_percentile data_col 75 in
  let q25 := np_percentile data_col 25 in
  let iqr := fsub q75 q25 in
  let h_fd := fdiv (fmul (of_Z 2) iqr) (py_pow n (fdiv (of_Z 1) (of_Z 3))) in
  fd_bins ←
    (if fltb (of_Z 0) h_fd
     then py_int (np_ceil (fdiv (fsub (series_max data_col)
                                      (series_min data_col)) h_fd))
     else Ok sturges);
  (* Square root rule *)
  sqrt_bins ← py_int (np_ceil (fsqrt n));
  (* Take median of suggestions, bounded between 3 and 20 *)
  let suggestions := [sturges; scott_bins; fd_bins; sqrt_bins] in
  median_suggestion ←
    py_int (np_median
              (List.filter (fun x => (3 <=? x) && (x <=? 50)) suggestions));
  Ok (Z.max 3 (Z.min 20 median_suggestion)).

End SuggestBinCount.

End BinCountAdvisor.

(** ** Discretizer: [Preprocessing.discretize_feature] and
    [Preprocessing.batch_discretize] *)

Module Discretizer.

Local Open Scope Q_scope.

(** A numeric column (a pandas Series of dtype float64): one entry per row,
    [None] for a missing value. *)
Abbreviation series := (list (option Q)).

(** The result of a discretization: a bucket id per row, [None] for the
    missing-marker (NaN). *)
Abbreviation buckets := (list (option Z)).

Definition Qltb (a b : Q) : bool := negb (Qle_bool b a).

Definition dropna (x : series) : list Q := omap id x.

Definition isna (v : option Q) : bool :=
  match v with None => true | Some _ => false end.

(** [min()] and [max()] of the non-missing values. *)
Definition nanmin (xs : list Q) : option Q :=
  match xs with
  | [] => None
  | x :: r => Some (fold_left (fun a b => if Qltb b a then b else a) r x)
  end.

Definition nanmax (xs : list Q) : option Q :=
  match xs with
  | [] => None
  | x :: r => Some (fold_left (fun a b => if Qltb a b then b else a) r x)
  end.

(** Float64 arithmetic.  A finite float is the rational number it denotes,
    so comparisons are exact; the operations round, so the edges they
    produce are not the ideal ones.  The arithmetic is therefore a
    parameter of the edge computations: the four operations and the float
    a decimal literal such as [0.001] denotes.  What is proved for every
    arithmetic holds of float64 whatever the rounding does. *)
Record arith : Type := Arith {
  fl_add : Q -> Q -> Q;
  fl_sub : Q -> Q -> Q;
  fl_mul : Q -> Q -> Q;
  fl_div : Q -> Q -> Q;
  fl_lit : Q -> Q
}.

(** Arithmetic without rounding. *)
Definition exact : arith := Arith Qplus Qminus Qmult Qdiv (fun q => q).

(** IEEE-754 binary64, round to nearest even, on finite floats: each
    operand is converted to the float it denotes, the operation is the
    correctly rounded one, and the finite result is read back as a
    rational.  (An overflow to infinity or an invalid operation has no
    rational value; it is read as 0 and lies outside this instance.) *)
Definition to_float (q : Q) : spec_float :=
  BinCountAdvisor.fdiv (BinCountAdvisor.of_Z (Qnum q))
    (BinCountAdvisor.of_Z (Zpos (Qden q))).

Definition of_float (x : spec_float) : Q :=
  match x with
  | S754_finite s m e =>
      if (0 <=? e)%Z then inject_Z (cond_Zopp s (Zpos m) * 2 ^ e)
      else Qmake (cond_Zopp s (Zpos m)) (Z.to_pos (2 ^ (- e)))
  | _ => 0
  end.

Definition lift2 (op : spec_float -> spec_float -> spec_float) (a b : Q)
  : Q :=
  of_float (op (to_float a) (to_float b)).

Definition binary64 : arith :=
  Arith (lift2 BinCountAdvisor.fadd) (lift2 BinCountAdvisor.fsub)
        (lift2 BinCountAdvisor.fmul) (lift2 BinCountAdvisor.fdiv)
        (fun q => of_float (to_float q)).

Definition of_nat (n : nat) : Q := inject_Z (Z.of_nat n).

(** [algos.unique]: distinct values in order of first appearance. *)
Fixpoint unique (l : list Q) : list Q :=
  match l with
  | [] => []
  | x :: r => x :: List.filter (fun y => negb (Qeq_bool x y)) (unique r)
  end.

(** [bins.searchsorted(x, side)] on sorted edges: with [side="left"] the
    number of edges strictly below [x], with [side="right"] the number of
    edges below or equal to [x]. *)
Fixpoint searchsorted_left (bins : list Q) (x : Q) : Z :=
  match bins with
  | [] => 0
  | b :: r => if Qltb b x then (1 + searchsorted_left r x)%Z else 0%Z
  end.

Fixpoint searchsorted_right (bins : list Q) (x : Q) : Z :=
  match bins with
  | [] => 0
  | b :: r => if Qle_bool b x then (1 + searchsorted_right r x)%Z else 0%Z
  end.

Definition len (bins : list Q) : Z := Z.of_nat (length bins).

(** One row of pandas' [_bins_to_cuts] with [right=True], [labels=False]:
    [ids = bins.searchsorted(x, side="left")], [ids = 1] for the lowest edge
    under [include_lowest], and the NaN mask
    [isna(x) | (ids == len(bins)) | (ids == 0)]; the bucket is [ids - 1]. *)
Definition cut_row (bins : list Q) (include_lowest : bool) (v : option Q)
  : option Z :=
  match v with
  | None => None
  | Some x =>
      let ids :=
        if include_lowest && Qeq_bool x (nth 0 bins 0)
        then 1%Z else searchsorted_left bins x in
      if (ids =? len bins)%Z || (ids =? 0)%Z then None else Some (ids - 1)%Z
  end.

(** pandas' [_bins_to_cuts]: duplicate edges raise under
    [duplicates="raise"] and are dropped under [duplicates="drop"], unless
    there are exactly two edges. *)
Definition bins_to_cuts (x : series) (bins : list Q)
    (include_lowest drop_duplicates : bool) : result buckets :=
  let unique_bins := unique bins in
  bins' ←
    (if (len unique_bins <? len bins)%Z && negb (len bins =? 2)%Z
     then if drop_duplicates then Ok unique_bins else Raise ValueError
     else Ok bins);
  Ok (map (cut_row bins' include_lowest) x).

Fixpoint is_monotonic_increasing (bins : list Q) : bool :=
  match bins with
  | a :: (b :: _) as r => Qle_bool a b && is_monotonic_increasing r
  | _ => true
  end.

(** [pd.cut(x, bins=custom_bins, labels=False)] with a list of edges. *)
Definition cut_bins (x : series) (bins : list Q) : result buckets :=
  if is_monotonic_increasing bins
  then bins_to_cuts x bins false false
  else Raise ValueError.

(** A DataFrame of numeric columns, by column name. *)
Abbreviation frame := (gmap string series).

(** DataFrames are mutable objects handled by reference: the heap maps a
    reference to the frame it currently holds. *)
Abbreviation ref := nat.
Abbreviation heap := (gmap nat (gmap string series)).

Section DiscretizeFeature.

Variable ar : arith.

(** [np.linspace(start, stop, num, endpoint=True)]: [num] samples
    [i * step + start] with [step = (stop - start) / (num - 1)], the last
    one set to [stop]; when the step underflows to zero the samples are
    [(i / (num - 1)) * (stop - start) + start]. *)
Definition np_linspace (start stop : Q) (num : nat) : list Q :=
  let delta := fl_sub ar stop start in
  match num with
  | O => []
  | 1%nat => [fl_add ar (fl_mul ar (of_nat 0) delta) start]
  | S div =>
      let step := fl_div ar delta (of_nat div) in
      let y (i : nat) : Q :=
        if Qeq_bool step 0
        then fl_mul ar (fl_div ar (of_nat i) (of_nat div)) delta
        else fl_mul ar (of_nat i) step in
      map (fun i => fl_add ar (y i) start) (seq 0 div) ++ [stop]
  end.

(** pandas' [_nbins_to_bins] with [right=True]: the edges of [nbins] equal
    width bins over [[mn, mx]].  A constant column gets a window of 0.1%
    around its value; otherwise the first edge is lowered by 0.1% of the
    range, which in exact arithmetic puts the minimum into the first
    (left-open) bin. *)
Definition nbins_to_bins (mn mx : Q) (nbins : nat) : list Q :=
  if Qeq_bool mn mx then
    let mn' :=
      fl_sub ar mn
        (if negb (Qeq_bool mn 0)
         then fl_mul ar (fl_lit ar (1 # 1000)) (Qabs mn)
         else fl_lit ar (1 # 1000)) in
    let mx' :=
      fl_add ar mx
        (if negb (Qeq_bool mx 0)
         then fl_mul ar (fl_lit ar (1 # 1000)) (Qabs mx)
         else fl_lit ar (1 # 1000)) in
    np_linspace mn' mx' (nbins + 1)
  else
    let bins := np_linspace mn mx (nbins + 1) in
    let adj := fl_mul ar (fl_sub ar mx mn) (fl_lit ar (1 # 1000)) in
    match bins with
    | b0 :: r => fl_sub ar b0 adj :: r
    | [] => []
    end.

(** [pd.cut(x, bins=nbins, labels=False)] with an integer [nbins].  On a
    column with no non-missing value the edges are all NaN: they collapse to
    one distinct edge, so the duplicate check raises unless there are exactly
    two of them, and then every row is masked. *)
Definition cut_nbins (x : series) (nbins : Z) : result buckets :=
  if (nbins <? 1)%Z then Raise ValueError
  else if (Z.of_nat (length x) =? 0)%Z then Raise ValueError
  else
    match nanmin (dropna x), nanmax (dropna x) with
    | Some mn, Some mx =>
        bins_to_cuts x (nbins_to_bins mn mx (Z.to_nat nbins)) false false
    | _, _ =>
        if (nbins =? 1)%Z then Ok (map (fun _ => None) x) else Raise ValueError
    end.

(** [Series.quantile] with linear interpolation, in float64, belongs to
    pandas and numpy; it is a parameter: [quantile_edge vals q i] is the
    quantile of the non-missing values [vals] at the [i]-th of the [q + 1]
    probabilities [np.linspace(0, 1, q + 1)]. *)
Variable quantile_edge : list Q -> Z -> nat -> Q.

(** [pd.qcut(x, q=q, labels=False, duplicates="drop")]: one edge per
    probability, cut with [include_lowest].  A number of quantiles below 1
    is refused; with no non-missing value every row is masked. *)
Definition qcut (x : series) (q : Z) : result buckets :=
  if (q <? 1)%Z then Raise ValueError
  else
    match dropna x with
    | [] => Ok (map (fun _ => None) x)
    | vals =>
        let bins := map (quantile_edge vals q) (seq 0 (Z.to_nat (q + 1))) in
        bins_to_cuts x bins true true
    end.

(** [(centers[1:] + centers[:-1]) * 0.5]. *)
Fixpoint midpoints (centers : list Q) : list Q :=
  match centers with
  | a :: (b :: _) as r =>
      fl_mul ar (fl_add ar b a) (fl_lit ar (1 # 2)) :: midpoints r
  | _ => []
  end.

(** [bin_edges[np.ediff1d(bin_edges, to_begin=np.inf) > 1e-8]]: an edge is
    kept when it lies more than 1e-8 above the edge before it. *)
Fixpoint wide_after (prev : Q) (edges : list Q) : list Q :=
  match edges with
  | [] => []
  | e :: r =>
      if Qltb (fl_lit ar (1 # 100000000)) (fl_sub ar e prev)
      then e :: wide_after e r else wide_after e r
  end.

Definition remove_small_bins (edges : list Q) : list Q :=
  match edges with
  | [] => []
  | e0 :: r => e0 :: wide_after e0 r
  end.

(** The one-dimensional k-means fit of scikit-learn
    ([sklearn.cluster.KMeans], started from the centres of [k] uniform
    bins) is a parameter: it maps the column and [k] to the cluster
    centres. *)
Variable kmeans_centers : list Q -> Z -> list Q.

(** [KBinsDiscretizer(n_bins, encode="ordinal", strategy="kmeans")
    .fit_transform(values.reshape(-1, 1)).flatten()]: the input is
    validated first (at least two bins, at least one sample, no NaN); a
    constant feature is replaced by bucket 0; otherwise [KMeans.fit]
    refuses fewer samples than clusters, the edges are the column minimum,
    the midpoints of the sorted centres and the column maximum, bins that
    are too narrow are removed, and a value's bucket is its
    [searchsorted(bin_edges[1:-1], x, side="right")] rank. *)
Definition kbins_fit_transform (x : series) (n_bins : Z) : result buckets :=
  if (n_bins <? 2)%Z then Raise ValueError
  else if (Z.of_nat (length x) =? 0)%Z then Raise ValueError
  else if existsb isna x then Raise ValueError
  else
    match nanmin (dropna x), nanmax (dropna x) with
    | Some col_min, Some col_max =>
        if Qeq_bool col_min col_max then Ok (map (fun _ => Some 0%Z) x)
        else if (Z.of_nat (length x) <? n_bins)%Z then Raise ValueError
        else
          let centers :=
            sort_by Qle_bool (kmeans_centers (dropna x) n_bins) in
          let bin_edges :=
            remove_small_bins (col_min :: midpoints centers ++ [col_max]) in
          let inner := removelast (tl bin_edges) in
          Ok (map (fun v => Some (searchsorted_right inner v)) (dropna x))
    | _, _ => Raise ValueError
    end.

(** [data[feature]]: KeyError when the column is absent. *)
Definition getitem (data : frame) (feature : string) : result series :=
  match data !! feature with
  | Some col => Ok col
  | None => Raise KeyError
  end.

(** [feature in data.columns]. *)
Definition has_column (data : frame) (feature : string) : bool :=
  match data !! feature with
  | Some _ => true
  | None => false
  end.

(** Python truthiness of [custom_bins]: [None] and the empty list are
    falsy. *)
Definition truthy (custom_bins : option (list Q)) : bool :=
  match custom_bins with
  | None | Some [] => false
  | Some (_ :: _) => true
  end.

Definition discretize_feature (data : frame) (feature : string)
    (method : string) (n_bins : Z) (custom_bins : option (list Q))
  : result buckets :=
  if String.eqb method "equal_width" then
    col ← getitem data feature; cut_nbins col n_bins
  else if String.eqb method "equal_frequency" then
    col ← getitem data feature; qcut col n_bins
  else if String.eqb method "kmeans" then
    col ← getitem data feature; kbins_fit_transform col n_bins
  else if String.eqb method "custom" && truthy custom_bins then
    col ← getitem data feature; cut_bins col (default [] custom_bins)
  else Raise ValueError.

(** One entry of [features_config]: the keyword arguments passed on by
    [**config]; an absent key leaves the parameter at its default
    ([method='equal_width'], [n_bins=5], [custom_bins=None]). *)
Record config : Type := Config {
  cfg_method : option string;
  cfg_n_bins : option Z;
  cfg_custom_bins : option (list Q)
}.

Definition discretize_with (data : frame) (feature : string) (c : config)
  : result buckets :=
  discretize_feature data feature
    (default "equal_width"%string (cfg_method c))
    (default 5%Z (cfg_n_bins c))
    (cfg_custom_bins c).

(** Bucket ids stored back as a numeric column. *)
Definition as_series (b : buckets) : series := map (fmap inject_Z) b.

(** [data.copy()]: a new object with the same columns. *)
Definition df_copy (data : ref) (h : heap) : ref * heap :=
  let r := fresh (dom h) in (r, <[r := h !!! data]> h).

(** [result_data[feature] = col]: in-place column assignment. *)
Definition setitem (r : ref) (feature : string) (col : series) (h : heap)
  : heap :=
  <[r := <[feature := col]> (h !!! r)]> h.

(** The loop of [batch_discretize] over [features_config.items()] (the
    optional logger call has no effect on the tables and is left out). *)
Fixpoint batch_loop (data result_data : ref)
    (items : list (string * config)) (h : heap) : heap * result unit :=
  match items with
  | [] => (h, Ok tt)
  | (feature, c) :: rest =>
      if has_column (h !!! data) feature then
        match discretize_with (h !!! data) feature c with
        | Ok col =>
            batch_loop data result_data rest
              (setitem result_data feature (as_series col) h)
        | Raise e => (h, Raise e)
        end
      else batch_loop data result_data rest h
  end.

Definition batch_discretize (data : ref)
    (features_config : list (string * config)) (h : heap)
  : heap * result ref :=
  let '(result_data, h1) := df_copy data h in
  let '(h2, r) := batch_loop data result_data features_config h1 in
  (h2, _ ← r; Ok result_data).

End DiscretizeFeature.

End Discretizer.

(** ** Label encoding: [Preprocessing.label_encode_non_numeric] *)

Module LabelEncoding.

(** A cell of a non-numeric (object) column: a string or a missing value,
    which is the float NaN or Python's [None]. *)
Inductive cell : Type :=
  | CStr (s : string)
  | CNaN
  | CNone.

(** A column is numeric (float64, [None] for NaN) or of dtype object. *)
Inductive column : Type :=
  | Numeric (xs : list (option Q))
  | Object (xs : list cell).

Definition is_numeric (c : column) : bool :=
  match c with Numeric _ => true | Object _ => false end.

(** An entry after [astype(str)], as the encoder sees it: a string, or the
    missing value NaN where [astype(str)] keeps a missing entry missing. *)
Inductive label : Type :=
  | LStr (s : string)
  | LNaN.

Definition label_eqb (a b : label) : bool :=
  match a, b with
  | LStr s, LStr t => String.eqb s t
  | LNaN, LNaN => true
  | _, _ => false
  end.

Definition leb_string (a b : string) : bool :=
  match String.compare a b with Gt => false | _ => true end.

(** The order of the fitted classes: strings in lexicographic order, the
    missing value after every string. *)
Definition leb_label (a b : label) : bool :=
  match a, b with
  | LStr s, LStr t => leb_string s t
  | LStr _, LNaN => true
  | LNaN, LStr _ => false
  | LNaN, LNaN => true
  end.

(** scikit-learn's [_unique] on an object array: the sorted distinct
    strings ([sorted(set(values))], which is [np.unique] when every value is
    a string), extended by the missing value when there is one. *)
Fixpoint dedup_sorted (l : list label) : list label :=
  match l with
  | a :: (b :: _) as r =>
      if label_eqb a b then dedup_sorted r else a :: dedup_sorted r
  | _ => l
  end.

Definition sk_unique (l : list label) : list label :=
  dedup_sorted (sort_by leb_label l).

(** The position of [s] in [classes]. *)
Fixpoint index_of (s : label) (classes : list label) : option nat :=
  match classes with
  | [] => None
  | c :: r => if label_eqb s c then Some O else S <$> index_of s r
  end.

(** [LabelEncoder().fit_transform(y)]: [classes_ = _unique(y)] and each
    value is replaced by its position in [classes_]. *)
Definition fit (y : list label) : list label := sk_unique y.

Definition transform (classes : list label) (y : list label)
  : list (option Q) :=
  map (fun s => (fun k => inject_Z (Z.of_nat k)) <$> index_of s classes) y.

(** A DataFrame with columns of both kinds, and the fitted encoders
    ([classes_]) by column name. *)
Abbreviation frame := (gmap string column).
Abbreviation encoders := (gmap string (list label)).

Section LabelEncode.

(** What [Series.astype(str)] makes of an entry belongs to pandas, and for
    a missing entry it depends on the pandas version: pandas 2 writes the
    text of the value (["nan"] for NaN, ["None"] for [None]), pandas 3
    keeps the entry missing.  Both conversions are parameters: of a number
    (Python's [str] of a float), and of a missing cell. *)
Variable str_of_number : option Q -> label.
Variable str_of_missing : cell -> label.

(** [Series.astype(str)]: a string stays as it is. *)
Definition str_of_cell (c : cell) : label :=
  match c with
  | CStr s => LStr s
  | CNaN | CNone => str_of_missing c
  end.

Definition astype_str (c : column) : list label :=
  match c with
  | Numeric xs => map str_of_number xs
  | Object xs => map str_of_cell xs
  end.

(** [df.select_dtypes(exclude=[np.number]).columns]. *)
Definition non_numeric_columns (df : frame) : list string :=
  (map_to_list (filter (fun kv => is_numeric kv.2 = false) df)).*1.

(** The loop body: fit an encoder on the column read from [df_encoded],
    overwrite the column with the codes, record the encoder.  The names
    come from the frame itself, so the column is always found. *)
Definition encode_step (st : frame * encoders) (col : string)
  : frame * encoders :=
  let '(df_encoded, label_encoders) := st in
  match df_encoded !! col with
  | Some c =>
      let y := astype_str c in
      let le := fit y in
      (<[col := Numeric (transform le y)]> df_encoded,
       <[col := le]> label_encoders)
  | None => st
  end.

(** [label_encode_non_numeric(df)]; [self.label_encoders] is the state it
    accumulates into and returns. *)
Definition label_encode_non_numeric (df : frame) (label_encoders : encoders)
  : frame * encoders :=
  foldl encode_step (df, label_encoders) (non_numeric_columns df).

End LabelEncode.

(** [get_label_encoders()]: the dictionary of fitted encoders. *)
Definition get_label_encoders (label_encoders : encoders) : encoders :=
  label_encoders.

End LabelEncoding.

(** ** Label transforms: [Preprocessing.calculate_treatment] and
    [Preprocessing.calculate_churn] *)

Module LabelTransforms.

Import Discretizer.
Local Open Scope Q_scope.

(** A computation on the heap of tables that returns or raises. *)
Definition table_op (A : Type) : Type := heap -> heap * result A.

Definition op_ret {A} (a : A) : table_op A := fun h => (h, Ok a).

Definition op_raise {A} (e : exn) : table_op A := fun h => (h, Raise e).

Definition op_bind {A B} (m : table_op A) (k : A -> table_op B)
  : table_op B :=
  fun h =>
    match m h with
    | (h', Ok a) => k a h'
    | (h', Raise e) => (h', Raise e)
    end.

Notation "x <~ m ;; k" := (op_bind m (fun x => k))
  (at level 100, m at next level, right associativity, only parsing).

(** [df.copy()]. *)
Definition copy (df : ref) : table_op ref :=
  fun h => let '(r, h') := df_copy df h in (h', Ok r).

(** [df[name]]: the column, KeyError when it is absent. *)
Definition get_column (df : ref) (name : string) : table_op series :=
  fun h => (h, getitem (h !!! df) name).

(** [df[name] = col]. *)
Definition set_column (df : ref) (name : string) (col : series)
  : table_op unit :=
  fun h => (setitem df name col h, Ok tt).

(** [df.drop(columns=names)]: a new table without these columns; KeyError
    when one of them is not a column of [df]. *)
Definition drop_columns (df : ref) (names : list string) : table_op ref :=
  fun h =>
    if forallb (has_column (h !!! df)) names then
      let r := fresh (dom h) in
      (<[r := foldr delete (h !!! df) names]> h, Ok r)
    else (h, Raise KeyError).

(** [a - b] on two columns of one table, row by row; a missing operand
    gives a missing difference. *)
Definition sub_cell (a b : option Q) : option Q :=
  match a, b with
  | Some x, Some y => Some (x - y)
  | _, _ => None
  end.

Definition series_sub (a b : series) : series := zip_with sub_cell a b.

(** [lambda x: 1 if x > 0 else (-1 if x < 0 else 0)]; every comparison with
    a missing value (NaN) is false. *)
Definition gt_zero (x : option Q) : bool :=
  match x with Some v => Qltb 0 v | None => false end.

Definition lt_zero (x : option Q) : bool :=
  match x with Some v => Qltb v 0 | None => false end.

Definition treatment_of (x : option Q) : option Q :=
  Some (inject_Z (if gt_zero x then 1 else if lt_zero x then -1 else 0)).

(** [lambda x: 1 if x > 0 else 0]. *)
Definition churn_of (x : option Q) : option Q :=
  Some (inject_Z (if gt_zero x then 1 else 0)).

Definition calculate_treatment (df : ref) : table_op ref :=
  df_copy <~ copy df ;;
  acr <~ get_column df_copy "ACR" ;;
  rate_lag <~ get_column df_copy "Rate_Lag" ;;
  _ <~ set_column df_copy "ACR_diff" (series_sub acr rate_lag) ;;
  acr_diff <~ get_column df_copy "ACR_diff" ;;
  _ <~ set_column df_copy "Treatment" (map treatment_of acr_diff) ;;
  drop_columns df_copy ["ACR_diff"; "Rate_Lag"; "ACR"]%string.

Definition calculate_churn (df : ref) : table_op ref :=
  df_copy <~ copy df ;;
  churn_rate <~ get_column df_copy "ChurnRate" ;;
  _ <~ set_column df_copy "Churn" (map churn_of churn_rate) ;;
  drop_columns df_copy ["ChurnRate"; "Members"; "Members_Lag"]%string.

End LabelTransforms.

(** * Vocabulary and inputs of the statements *)

(** The zero-variance column [10, 10, 10, 10]. *)
Definition ten_four_times : list spec_float :=
  let ten := BinCountAdvisor.of_Z 10 in [ten; ten; ten; ten].

(** Edges that increase strictly, as the specification asks of bin edges. *)
Definition strictly_increasing (bins : list Q) : Prop :=
  forall (i j : nat) (a b : Q),
    (i < j)%nat -> bins !! i = Some a -> bins !! j = Some b -> (a < b)%Q.

(** A numeric column without missing values, from integers. *)
Definition column_of_ints (zs : list Z) : list (option Q) :=
  map (fun z => Some (inject_Z z)) zs.

Definition one_to_ten : list (option Q) :=
  column_of_ints [1; 2; 3; 4; 5; 6; 7; 8; 9; 10]%Z.

Definition all_tens : list (option Q) := column_of_ints [10; 10; 10; 10]%Z.

(** The column [1, 2, null, 4, 5] of the specification. *)
Definition with_null : list (option Q) :=
  [Some 1%Q; Some 2%Q; None; Some 4%Q; Some 5%Q].

(** A table with the single column ["x"]. *)
Definition table_x (col : list (option Q)) : gmap string (list (option Q)) :=
  {[ "x"%string := col ]}.

(** Two floats for closed examples: the one next above 1 that the decimal
    1.00000000000001 denotes, and the one the decimal 31.99 denotes. *)
Definition next_to_one : Q :=
  Discretizer.fl_lit Discretizer.binary64
    (100000000000001 # 100000000000000).

Definition float_31_99 : Q :=
  Discretizer.fl_lit Discretizer.binary64 (3199 # 100).

(** A check of [strictly_increasing] on given edges. *)
Fixpoint increasing_edges (bins : list Q) : bool :=
  match bins with
  | a :: (b :: _) as r => Discretizer.Qltb a b && increasing_edges r
  | _ => true
  end.

(** The column [1, 2, 3]. *)
Definition one_to_three : list (option Q) := column_of_ints [1; 2; 3]%Z.


(** A clustering routine for closed examples that do not reach k-means. *)
Definition no_kmeans : list Q -> Z -> list Q := fun _ _ => [].

(** Quantile edges for closed examples: linear interpolation between the
    order statistics at probability [i / q], without rounding. *)
Definition linear_quantile (vals : list Q) (q : Z) (i : nat) : Q :=
  let arr := sort_by Qle_bool vals in
  let n := Z.of_nat (length arr) in
  let virtual :=
    (inject_Z (n - 1) * (inject_Z (Z.of_nat i) / inject_Z q))%Q in
  let previous := Qfloor virtual in
  let next := Z.min (previous + 1) (n - 1) in
  let gamma := (virtual - inject_Z previous)%Q in
  let a := nth (Z.to_nat previous) arr 0%Q in
  let b := nth (Z.to_nat next) arr 0%Q in
  (a + (b - a) * gamma)%Q.

(** The rows of a result that belong to non-missing rows of the column. *)
Fixpoint present_rows (col : list (option Q)) (b : list (option Z))
  : list (option Z) :=
  match col, b with
  | Some _ :: col', k :: b' => k :: present_rows col' b'
  | None :: col', _ :: b' => present_rows col' b'
  | _, _ => []
  end.

(** Edges that never decrease, and edges with a repeated value. *)
Definition non_decreasing (bins : list Q) : Prop :=
  forall (i : nat) (a b : Q),
    bins !! i = Some a -> bins !! S i = Some b -> (a <= b)%Q.

Definition has_repeated_edge (bins : list Q) : Prop :=
  exists (i j : nat) (a b : Q),
    (i < j)%nat /\ bins !! i = Some a /\ bins !! j = Some b /\ (a == b)%Q.

(** The configurations of the custom strategy that the code rejects: no
    edges, an empty list of edges, edges that decrease somewhere, or a
    repeated edge among a number of edges other than two. *)
Definition invalid_custom_bins (custom_bins : option (list Q)) : Prop :=
  match custom_bins with
  | None => True
  | Some bins =>
      bins = [] \/ ~ non_decreasing bins \/
      (has_repeated_edge bins /\ length bins <> 2%nat)
  end.

(** A heap holding one table, at reference 0. *)
Definition one_table (col : list (option Q))
  : gmap nat (gmap string (list (option Q))) :=
  {[ 0%nat := table_x col ]}.

(** A table with a non-numeric column that has a missing entry. *)
Definition cities : gmap string LabelEncoding.column :=
  {[ "city"%string :=
       LabelEncoding.Object
         [LabelEncoding.CStr "rome"; LabelEncoding.CNaN;
          LabelEncoding.CStr "oslo"] ]}.

(** A number printer for closed examples without numeric columns. *)
Definition no_numbers : option Q -> LabelEncoding.label :=
  fun _ => LabelEncoding.LStr "".

(** The two conversions of a missing entry by [astype(str)]: pandas 3
    keeps it missing; pandas 2 writes the text of the value. *)
Definition keeps_missing : LabelEncoding.cell -> LabelEncoding.label :=
  fun _ => LabelEncoding.LNaN.

Definition writes_text : LabelEncoding.cell -> LabelEncoding.label :=
  fun c =>
    match c with
    | LabelEncoding.CNone => LabelEncoding.LStr "None"
    | _ => LabelEncoding.LStr "nan"
    end.

(** The strict order of the fitted classes: strings by lexicographic
    comparison, the missing value above every string. *)
Definition label_lt (a b : LabelEncoding.label) : Prop :=
  match a, b with
  | LabelEncoding.LStr s, LabelEncoding.LStr t => String.compare s t = Lt
  | LabelEncoding.LStr _, LabelEncoding.LNaN => True
  | LabelEncoding.LNaN, _ => False
  end.

(** A missing cell. *)
Definition is_missing (x : LabelEncoding.cell) : Prop :=
  x = LabelEncoding.CNaN \/ x = LabelEncoding.CNone.

(** The heap after the batch [{"x": {}}] has run on [one_table one_to_ten]:
    the input table at reference 0, the returned table at reference 1. *)
Definition after_batch : gmap nat (gmap string (list (option Q))) :=
  <[1%nat := <["x"%string :=
                 Discretizer.as_series
                   [Some 0; Some 0; Some 1; Some 1; Some 2;
                    Some 2; Some 3; Some 3; Some 4; Some 4]%Z]>
               (table_x one_to_ten)]> (one_table one_to_ten).

(** A heap holding one table of numeric columns, at reference 0. *)
Definition single_table (d : gmap string (list (option Q)))
  : gmap nat (gmap string (list (option Q))) :=
  {[ 0%nat := d ]}.

(** A table of rates: against the lagged rate 2 the current rate is above,
    below, missing, equal. *)
Definition acr_column : list (option Q) :=
  [Some 3%Q; Some 1%Q; None; Some 2%Q].

Definition rate_lag_column : list (option Q) :=
  [Some 2%Q; Some 2%Q; Some 2%Q; Some 2%Q].

Definition rates_table : gmap string (list (option Q)) :=
  {[ "ACR"%string := acr_column; "Rate_Lag"%string := rate_lag_column ]}.

(** The same table without its ACR column. *)
Definition lag_only_table : gmap string (list (option Q)) :=
  {[ "Rate_Lag"%string := rate_lag_column ]}.

(** A table of memberships: a positive, a zero and a missing churn rate. *)
Definition churn_rate_column : list (option Q) :=
  [Some (1 # 10)%Q; Some 0%Q; None].

Definition members_column : list (option Q) :=
  [Some 90%Q; Some 100%Q; Some 100%Q].

Definition members_lag_column : list (option Q) :=
  [Some 100%Q; Some 100%Q; None].

Definition members_table : gmap string (list (option Q)) :=
  {[ "ChurnRate"%string := churn_rate_column;
     "Members"%string := members_column;
     "Members_Lag"%string := members_lag_column ]}.

(** The same table with the churn rate only. *)
Definition rate_only_table : gmap string (list (option Q)) :=
  {[ "ChurnRate"%string := churn_rate_column ]}.

(** The entries of the column of [cities]. *)
Definition city_cells : list LabelEncoding.cell :=
  [LabelEncoding.CStr "rome"; LabelEncoding.CNaN; LabelEncoding.CStr "oslo"].

(** The buckets of [one_to_ten] in five bins of equal width. *)
Definition five_bins_of_ten : list (option Z) :=
  [Some 0; Some 0; Some 1; Some 1; Some 2;
   Some 2; Some 3; Some 3; Some 4; Some 4]%Z.

(** Library functions for closed examples of the advisor: constant
    stand-ins for [np.log2] and the float power. *)
Definition const_log2 (z : Z) : spec_float -> spec_float :=
  fun _ => BinCountAdvisor.of_Z z.

Definition const_pow (z : Z) : spec_float -> spec_float -> spec_float :=
  fun _ _ => BinCountAdvisor.of_Z z.

(** The column [1, ..., 8], and a column with one value beside a missing
    one. *)
Definition one_to_eight : list spec_float :=
  map BinCountAdvisor.of_Z [1; 2; 3; 4; 5; 6; 7; 8]%Z.

Definition five_and_missing : list spec_float :=
  [S754_nan; BinCountAdvisor.of_Z 5].

(** * Properties *)

Lemma rbind_Ok {A B} (r : result A) (k : A -> result B) b :
  r ≫= k = Ok b -> exists a, r = Ok a /\ k a = Ok b.
Proof. destruct r as [a|e]; simpl; [eauto | discriminate]. Qed.

Lemma raises_bind_l {A B} (r : result A) (k : A -> result B) :
  raises r -> raises (r ≫= k).
Proof. intros [e ->]. exists e. reflexivity. Qed.

(** ** The bin-count advisor *)

Section BinCountFacts.

Import BinCountAdvisor.

Variable np_log2 : float -> float.
Variable py_pow : float -> float -> float.

(** NaN is absorbing for the arithmetic the Scott rule uses. *)
Lemma fdiv_nan_r x : fdiv x S754_nan = S754_nan.
Proof. destruct x; reflexivity. Qed.

Lemma fdiv_nan_l x : fdiv S754_nan x = S754_nan.
Proof. reflexivity. Qed.

Lemma fmul_nan_r x : fmul x S754_nan = S754_nan.
Proof. destruct x; reflexivity. Qed.

Lemma py_int_ceil_nan : py_int (np_ceil S754_nan) = Raise ValueError.
Proof. reflexivity. Qed.

(** A zero width divides a zero range into NaN, whatever the cube root
    of [n] is. *)
Lemma zero_width_nan (c : float) (s : bool) :
  fdiv (S754_zero false) (fdiv (S754_zero s) c) = S754_nan.
Proof. destruct c as [sc|sc| |sc m e], s; reflexivity. Qed.

(** With fewer than two values the sample standard deviation is NaN. *)
Lemma series_std_short (xs : list float) :
  (length (notna xs) <= 1)%nat -> series_std xs = S754_nan.
Proof.
  intros Hlen. unfold series_std.
  replace (Z.of_nat (length (notna xs)) <=? 1)%Z with true
    by (symmetry; apply Z.leb_le; lia).
  rewrite !fdiv_nan_r. reflexivity.
Qed.

(** The clamp: a returned bin count lies in [3, 20]. *)
Lemma suggest_bin_count_clamped (data_col : list float) (k : Z) :
  suggest_bin_count np_log2 py_pow data_col = Ok k -> (3 <= k <= 20)%Z.
Proof.
  unfold suggest_bin_count. intros H.
  repeat (apply rbind_Ok in H; destruct H as [? [_ H]]).
  injection H as <-. lia.
Qed.

Lemma sturges_cases (n : float) (k : Z -> result Z) :
  (forall sturges, raises (k sturges)) ->
  raises (py_int (np_ceil (fadd (np_log2 n) (of_Z 1))) ≫= k).
Proof.
  intros Hk. destruct (py_int _) as [sturges|e].
  - apply Hk.
  - exists e. reflexivity.
Qed.

(** C1. [suggest_bin_count] does not return on every non-empty sequence
    without missing entries: on a sequence of one value the sample
    standard deviation is NaN, the Scott width is NaN, and the unguarded
    [int(np.ceil(...))] of the Scott rule raises (whatever [np.log2] and
    the power function return). *)
Theorem suggest_bin_count_singleton_raises (x : float) :
  raises (suggest_bin_count np_log2 py_pow [x]).
Proof.
  unfold suggest_bin_count. apply sturges_cases. intros sturges.
  apply raises_bind_l.
  rewrite series_std_short.
  - rewrite fmul_nan_r, fdiv_nan_l, fdiv_nan_r, py_int_ceil_nan.
    exists ValueError. reflexivity.
  - unfold notna. simpl. destruct (negb (is_nan x)); simpl; lia.
Qed.

Lemma ten_four_times_std : series_std ten_four_times = S754_zero false.
Proof. vm_compute. reflexivity. Qed.

Lemma ten_four_times_range :
  fsub (series_max ten_four_times) (series_min ten_four_times)
  = S754_zero false.
Proof. vm_compute. reflexivity. Qed.

(** C2. On the zero-variance input [10, 10, 10, 10] the Scott heuristic is
    not skipped: its width is [3.5 * 0 / n ** (1/3)], the range divided by
    it is 0/0 = NaN, and [int(np.ceil(nan))] raises instead of the
    function returning 3. *)
Theorem suggest_bin_count_zero_variance_raises :
  raises (suggest_bin_count np_log2 py_pow ten_four_times).
Proof.
  unfold suggest_bin_count. apply sturges_cases. intros sturges.
  apply raises_bind_l.
  rewrite ten_four_times_std, ten_four_times_range.
  change (fmul (fdiv (of_Z 7) (of_Z 2)) (S754_zero false))
    with (S754_zero false).
  rewrite zero_width_nan, py_int_ceil_nan.
  exists ValueError. reflexivity.
Qed.

(** The sibling rule is guarded: on the same input the interquartile
    range is zero, the Freedman-Diaconis width is not positive whatever the
    cube root of [n] is, and the candidate falls back to Sturges' value. *)
Lemma freedman_diaconis_guarded (c : float) :
  fltb (of_Z 0)
    (fdiv (fmul (of_Z 2)
             (fsub (np_percentile ten_four_times 75)
                   (np_percentile ten_four_times 25))) c) = false.
Proof.
  change (fmul (of_Z 2)
            (fsub (np_percentile ten_four_times 75)
                  (np_percentile ten_four_times 25)))
    with (S754_zero false).
  destruct c as [sc|sc| |sc m e]; reflexivity.
Qed.

End BinCountFacts.

(** With the values the library functions take at these sizes
    ([log2 1 = 0], [log2 4 = 2]; the power is not reached with a value
    that matters) the exception is the ValueError of [int(nan)]. *)
Example suggest_bin_count_one_value
    (py_pow : spec_float -> spec_float -> spec_float) :
  BinCountAdvisor.suggest_bin_count
    (fun _ => BinCountAdvisor.of_Z 0) py_pow [BinCountAdvisor.of_Z 5]
  = Raise ValueError.
Proof.
  unfold BinCountAdvisor.suggest_bin_count.
  rewrite series_std_short by (simpl; lia).
  rewrite fmul_nan_r, fdiv_nan_l, fdiv_nan_r. reflexivity.
Qed.

Example suggest_bin_count_four_tens
    (py_pow : spec_float -> spec_float -> spec_float) :
  BinCountAdvisor.suggest_bin_count
    (fun _ => BinCountAdvisor.of_Z 2) py_pow ten_four_times
  = Raise ValueError.
Proof.
  unfold BinCountAdvisor.suggest_bin_count.
  rewrite ten_four_times_std, ten_four_times_range.
  change (BinCountAdvisor.fmul
            (BinCountAdvisor.fdiv (BinCountAdvisor.of_Z 7)
               (BinCountAdvisor.of_Z 2)) (S754_zero false))
    with (S754_zero false).
  rewrite zero_width_nan. reflexivity.
Qed.

(** The model returns where nothing degenerates: eight values, with
    [log2 8 = 3] and [8 ** (1/3) = 2]. *)
Example suggest_bin_count_eight :
  BinCountAdvisor.suggest_bin_count
    (fun _ => BinCountAdvisor.of_Z 3) (fun _ _ => BinCountAdvisor.of_Z 2)
    (map BinCountAdvisor.of_Z [1; 2; 3; 4; 5; 6; 7; 8]%Z) = Ok 3%Z.
Proof. vm_compute. reflexivity. Qed.

(** ** The discretizer: arithmetic of edges and ranks *)

Section DiscretizerFacts.

Import Discretizer.
Local Open Scope Q_scope.

Variable ar : arith.
Variable quantile_edge : list Q -> Z -> nat -> Q.
Variable kmeans_centers : list Q -> Z -> list Q.

Lemma Qltb_lt (a b : Q) : Qltb a b = true <-> a < b.
Proof.
  unfold Qltb. rewrite negb_true_iff.
  split; intros H.
  - apply Qnot_le_lt. intros Hle. apply Qle_bool_iff in Hle. congruence.
  - destruct (Qle_bool b a) eqn:E; [|reflexivity].
    apply Qle_bool_iff in E. exfalso. lra.
Qed.

Lemma Qltb_ge (a b : Q) : Qltb a b = false <-> b <= a.
Proof.
  unfold Qltb. rewrite negb_false_iff. apply Qle_bool_iff.
Qed.

Lemma Qeq_bool_false (a b : Q) : Qeq_bool a b = false <-> ~ a == b.
Proof.
  split.
  - intros H Heq. apply Qeq_bool_iff in Heq. congruence.
  - intros H. destruct (Qeq_bool a b) eqn:E; [|reflexivity].
    apply Qeq_bool_iff in E. contradiction.
Qed.

(** [min()] and [max()] return an entry that bounds all the others. *)
Lemma fold_min_spec (r : list Q) (x m : Q) :
  fold_left (fun a b => if Qltb b a then b else a) r x = m ->
  (m = x \/ In m r) /\ m <= x /\ (forall y, In y r -> m <= y).
Proof.
  revert x. induction r as [|y r IH]; simpl; intros x H.
  - subst. repeat split; [auto | lra | tauto].
  - destruct (Qltb y x) eqn:E; apply IH in H as (Hin & Hle & Hall).
    + apply Qltb_lt in E. repeat split.
      * destruct Hin; auto.
      * lra.
      * intros z [<-|Hz]; auto.
    + apply Qltb_ge in E. repeat split.
      * destruct Hin; auto.
      * lra.
      * intros z [<-|Hz]; [lra | auto].
Qed.

Lemma fold_max_spec (r : list Q) (x m : Q) :
  fold_left (fun a b => if Qltb a b then b else a) r x = m ->
  (m = x \/ In m r) /\ x <= m /\ (forall y, In y r -> y <= m).
Proof.
  revert x. induction r as [|y r IH]; simpl; intros x H.
  - subst. repeat split; [auto | lra | tauto].
  - destruct (Qltb x y) eqn:E; apply IH in H as (Hin & Hle & Hall).
    + apply Qltb_lt in E. repeat split.
      * destruct Hin; auto.
      * lra.
      * intros z [<-|Hz]; auto.
    + apply Qltb_ge in E. repeat split.
      * destruct Hin; auto.
      * lra.
      * intros z [<-|Hz]; [lra | auto].
Qed.

Lemma nanmin_spec (xs : list Q) (mn : Q) :
  nanmin xs = Some mn -> In mn xs /\ forall x, In x xs -> mn <= x.
Proof.
  destruct xs as [|x r]; simpl; [discriminate|].
  intros [= H]. apply fold_min_spec in H as (Hin & Hle & Hall).
  split; [destruct Hin as [->|Hin]; simpl; auto|]. intros y [<-|Hy]; auto.
Qed.

Lemma nanmax_spec (xs : list Q) (mx : Q) :
  nanmax xs = Some mx -> In mx xs /\ forall x, In x xs -> x <= mx.
Proof.
  destruct xs as [|x r]; simpl; [discriminate|].
  intros [= H]. apply fold_max_spec in H as (Hin & Hle & Hall).
  split; [destruct Hin as [->|Hin]; simpl; auto|]. intros y [<-|Hy]; auto.
Qed.

(** *** [np.linspace] *)

Lemma np_linspace_length (a : arith) (start stop : Q) (n : nat) :
  (0 < n)%nat -> length (np_linspace a start stop (n + 1)) = S n.
Proof.
  intros Hn. rewrite Nat.add_1_r. destruct n as [|k]; [lia|].
  unfold np_linspace. cbv zeta.
  rewrite length_app, length_map, length_seq. simpl. lia.
Qed.

(** The last sample is [stop] itself, whatever the arithmetic. *)
Lemma np_linspace_last (a : arith) (start stop : Q) (n : nat) :
  (0 < n)%nat -> np_linspace a start stop (n + 1) !! n = Some stop.
Proof.
  intros Hn. rewrite Nat.add_1_r. destruct n as [|k]; [lia|].
  unfold np_linspace. cbv zeta.
  rewrite lookup_app_r by (rewrite length_map, length_seq; lia).
  rewrite length_map, length_seq, Nat.sub_diag. reflexivity.
Qed.






(** *** Ranks: [searchsorted(side="left")] *)

Lemma searchsorted_left_rank (bins : list Q) (x : Q) (m : nat) :
  (m < length bins)%nat ->
  (forall i b, (i < m)%nat -> bins !! i = Some b -> b < x) ->
  (forall b, bins !! m = Some b -> x <= b) ->
  searchsorted_left bins x = Z.of_nat m.
Proof.
  revert m. induction bins as [|b r IH]; simpl; intros m Hm Hlt Hge.
  - lia.
  - destruct m as [|m].
    + specialize (Hge b eq_refl). apply Qltb_ge in Hge. rewrite Hge.
      reflexivity.
    + assert (Hb : b < x) by (apply (Hlt O); [lia | reflexivity]).
      apply Qltb_lt in Hb. rewrite Hb.
      rewrite (IH m).
      * lia.
      * lia.
      * intros i c Hi Hc. apply (Hlt (S i)); [lia | exact Hc].
      * intros c Hc. apply Hge. exact Hc.
Qed.

Lemma searchsorted_left_nonneg (bins : list Q) (x : Q) :
  (0 <= searchsorted_left bins x)%Z.
Proof.
  induction bins as [|b r IH]; simpl; [lia|]. destruct (Qltb b x); lia.
Qed.

(** *** Strictly increasing edges pass both checks of [pd.cut] *)

Lemma strictly_increasing_tail (b : Q) (r : list Q) :
  strictly_increasing (b :: r) -> strictly_increasing r.
Proof.
  intros H i j x y Hij Hx Hy.
  apply (H (S i) (S j)); [lia | exact Hx | exact Hy].
Qed.

Lemma strictly_increasing_head (b : Q) (r : list Q) (y : Q) :
  strictly_increasing (b :: r) -> In y r -> b < y.
Proof.
  intros H Hy. apply list_elem_of_In, list_elem_of_lookup in Hy as [j Hj].
  apply (H O (S j)); [lia | reflexivity | exact Hj].
Qed.

Lemma filter_all {A} (f : A -> bool) (l : list A) :
  (forall y, In y l -> f y = true) -> List.filter f l = l.
Proof.
  induction l as [|a l IH]; simpl; intros H; [reflexivity|].
  rewrite (H a) by auto. f_equal. apply IH. auto.
Qed.

Lemma unique_strictly_increasing (bins : list Q) :
  strictly_increasing bins -> unique bins = bins.
Proof.
  induction bins as [|b r IH]; simpl; intros H; [reflexivity|].
  rewrite IH by (eapply strictly_increasing_tail; exact H).
  f_equal. apply filter_all. intros y Hy.
  apply negb_true_iff, Qeq_bool_false.
  pose proof (strictly_increasing_head b r y H Hy). lra.
Qed.

Lemma monotonic_strictly_increasing (bins : list Q) :
  strictly_increasing bins -> is_monotonic_increasing bins = true.
Proof.
  induction bins as [|a r IH]; intros H; [reflexivity|].
  destruct r as [|b r']; [reflexivity|].
  cbn [is_monotonic_increasing]. apply andb_true_iff. split.
  - apply Qle_bool_iff. apply Qlt_le_weak.
    apply (H O 1%nat); [lia | reflexivity | reflexivity].
  - apply IH. eapply strictly_increasing_tail. exact H.
Qed.

Lemma bins_to_cuts_strictly_increasing (x : series) (bins : list Q) :
  strictly_increasing bins ->
  bins_to_cuts x bins false false = Ok (map (cut_row bins false) x).
Proof.
  intros H. unfold bins_to_cuts.
  rewrite unique_strictly_increasing by assumption.
  rewrite Z.ltb_irrefl. reflexivity.
Qed.

(** *** The edges of [_nbins_to_bins] *)


Lemma nbins_to_bins_length (a : arith) (mn mx : Q) (n : nat) :
  (0 < n)%nat -> length (nbins_to_bins a mn mx n) = S n.
Proof.
  intros Hn. unfold nbins_to_bins.
  destruct (Qeq_bool mn mx).
  - apply np_linspace_length. assumption.
  - pose proof (np_linspace_length a mn mx n Hn) as Hlen.
    destruct (np_linspace a mn mx (n + 1)); simpl in *; [discriminate|lia].
Qed.

(** On a column that is not constant the last edge is the maximum
    itself, whatever the arithmetic. *)
Lemma nbins_to_bins_last (a : arith) (mn mx : Q) (n : nat) :
  (0 < n)%nat -> ~ mn == mx -> nbins_to_bins a mn mx n !! n = Some mx.
Proof.
  intros Hn Hne. unfold nbins_to_bins.
  replace (Qeq_bool mn mx) with false
    by (symmetry; apply Qeq_bool_false; assumption).
  pose proof (np_linspace_last a mn mx n Hn) as Hlast.
  destruct (np_linspace a mn mx (n + 1)) as [|b0 r];
    [rewrite lookup_nil in Hlast; discriminate|].
  destruct n as [|k]; [lia|]. exact Hlast.
Qed.






(** *** Equal-width discretization *)


(** With strictly increasing edges the duplicate check of [pd.cut]
    passes, and every row is cut against the edges as computed. *)
Lemma equal_width_unfold (a : arith) (data : frame) (feature : string)
    (col : series) (n_bins : Z) (custom_bins : option (list Q))
    (mn mx : Q) :
  data !! feature = Some col -> (1 <= n_bins)%Z ->
  nanmin (dropna col) = Some mn -> nanmax (dropna col) = Some mx ->
  strictly_increasing (nbins_to_bins a mn mx (Z.to_nat n_bins)) ->
  discretize_feature a quantile_edge kmeans_centers data feature
    "equal_width" n_bins custom_bins
  = Ok (map (cut_row (nbins_to_bins a mn mx (Z.to_nat n_bins)) false) col).
Proof.
  intros Hcol Hn Hmin Hmax Hinc.
  unfold discretize_feature, getitem. simpl. rewrite Hcol. simpl.
  unfold cut_nbins.
  replace (n_bins <? 1)%Z with false by (symmetry; apply Z.ltb_ge; lia).
  destruct col as [|v col']; [discriminate|].
  cbn [length Z.of_nat Z.eqb]. rewrite Hmin, Hmax.
  apply bins_to_cuts_strictly_increasing. exact Hinc.
Qed.


(** *** Missing values *)

Lemma dropna_map_Some (l : list Q) : dropna (map Some l) = l.
Proof.
  unfold dropna. induction l as [|a l IH]; simpl; [reflexivity|].
  f_equal. exact IH.
Qed.

Lemma present_rows_map (f : option Q -> option Z) (col : series) :
  present_rows col (map f col) = map f (map Some (dropna col)).
Proof.
  unfold dropna. induction col as [|[x|] col IH]; simpl.
  - reflexivity.
  - f_equal. exact IH.
  - exact IH.
Qed.

Lemma no_missing_dropna (col : series) :
  existsb isna col = false -> map Some (dropna col) = col.
Proof.
  unfold dropna. induction col as [|[x|] col IH]; simpl; intros H.
  - reflexivity.
  - f_equal. apply IH. exact H.
  - discriminate.
Qed.

Lemma no_missing_lookup (col : series) (i : nat) :
  existsb isna col = false -> col !! i <> Some None.
Proof.
  revert i. induction col as [|[x|] col IH]; simpl; intros i H Hi.
  - rewrite lookup_nil in Hi. discriminate.
  - destruct i as [|i]; simpl in Hi; [discriminate|]. exact (IH i H Hi).
  - discriminate.
Qed.

Lemma has_missing_existsb (col : series) (i : nat) :
  col !! i = Some None -> existsb isna col = true.
Proof.
  intros Hi. destruct (existsb isna col) eqn:E; [reflexivity|].
  exfalso. exact (no_missing_lookup col i E Hi).
Qed.

(** The rows of a cut: the same edges for every row, and a missing row
    stays missing. *)
Lemma map_cut_row_missing (bins : list Q) (il : bool) (col : series)
    (i : nat) :
  col !! i = Some None -> map (cut_row bins il) col !! i = Some None.
Proof. intros Hi. rewrite list_lookup_fmap, Hi. reflexivity. Qed.

Lemma bins_to_cuts_inv (x : series) (bins : list Q) (il dd : bool)
    (b : buckets) :
  bins_to_cuts x bins il dd = Ok b ->
  exists bins' : list Q,
    b = map (cut_row bins' il) x /\
    forall y, bins_to_cuts y bins il dd = Ok (map (cut_row bins' il) y).
Proof.
  unfold bins_to_cuts.
  destruct ((len (unique bins) <? len bins)%Z && negb (len bins =? 2)%Z).
  - destruct dd; simpl; [|discriminate].
    intros [= <-]. eexists. split; reflexivity.
  - simpl. intros [= <-]. eexists. split; reflexivity.
Qed.

Lemma cut_nbins_inv (x : series) (n : Z) (b : buckets) :
  cut_nbins ar x n = Ok b ->
  (dropna x = [] /\ b = map (fun _ => None) x) \/
  (exists mn mx : Q,
     (1 <= n)%Z /\ nanmin (dropna x) = Some mn /\
     nanmax (dropna x) = Some mx /\
     bins_to_cuts x (nbins_to_bins ar mn mx (Z.to_nat n)) false false
     = Ok b).
Proof.
  unfold cut_nbins.
  destruct (n <? 1)%Z eqn:En; [discriminate|]. apply Z.ltb_ge in En.
  destruct (Z.of_nat (length x) =? 0)%Z; [discriminate|].
  destruct (dropna x) as [|v vals] eqn:Ed.
  - simpl. destruct (n =? 1)%Z; [|discriminate].
    intros [= <-]. left. split; reflexivity.
  - cbn [nanmin nanmax]. intros H. right. eauto 8.
Qed.

Lemma cut_nbins_rows (x : series) (n : Z) (b : buckets) :
  cut_nbins ar x n = Ok b ->
  length b = length x /\
  (forall i, x !! i = Some None -> b !! i = Some None) /\
  (dropna x <> [] ->
   cut_nbins ar (map Some (dropna x)) n = Ok (present_rows x b)).
Proof.
  intros H. apply cut_nbins_inv in H
    as [[Hd ->]|(mn & mx & Hn & Hmin & Hmax & H)].
  - repeat split.
    + apply length_map.
    + intros i Hi. rewrite list_lookup_fmap, Hi. reflexivity.
    + intros Hne. contradiction.
  - apply bins_to_cuts_inv in H as (bins' & -> & Hany). repeat split.
    + apply length_map.
    + intros i. apply map_cut_row_missing.
    + intros Hne. unfold cut_nbins. rewrite present_rows_map.
      replace (n <? 1)%Z with false by (symmetry; apply Z.ltb_ge; lia).
      rewrite dropna_map_Some, Hmin, Hmax.
      replace (Z.of_nat (length (map Some (dropna x))) =? 0)%Z with false.
      * apply Hany.
      * symmetry. apply Z.eqb_neq. rewrite length_map.
        destruct (dropna x); [contradiction | simpl; lia].
Qed.

Lemma qcut_rows (x : series) (q : Z) (b : buckets) :
  qcut quantile_edge x q = Ok b ->
  (1 <= q)%Z /\ length b = length x /\
  (forall i, x !! i = Some None -> b !! i = Some None) /\
  (dropna x <> [] ->
   qcut quantile_edge (map Some (dropna x)) q = Ok (present_rows x b)).
Proof.
  unfold qcut. rewrite dropna_map_Some.
  destruct (q <? 1)%Z eqn:Eq; [discriminate|]. apply Z.ltb_ge in Eq.
  destruct (dropna x) as [|v vals] eqn:Ed.
  - intros [= <-]. split; [exact Eq|]. repeat split.
    + apply length_map.
    + intros i Hi. rewrite list_lookup_fmap, Hi. reflexivity.
    + intros Hne. contradiction.
  - intros H. apply bins_to_cuts_inv in H as (bins' & -> & Hany).
    split; [exact Eq|]. repeat split.
    + apply length_map.
    + intros i. apply map_cut_row_missing.
    + intros _. rewrite Hany, present_rows_map, Ed. reflexivity.
Qed.

Lemma cut_bins_rows (x : series) (bins : list Q) (b : buckets) :
  cut_bins x bins = Ok b ->
  length b = length x /\
  (forall i, x !! i = Some None -> b !! i = Some None) /\
  cut_bins (map Some (dropna x)) bins = Ok (present_rows x b).
Proof.
  unfold cut_bins.
  destruct (is_monotonic_increasing bins); [|discriminate].
  intros H. apply bins_to_cuts_inv in H as (bins' & -> & Hany).
  repeat split.
  - apply length_map.
  - intros i. apply map_cut_row_missing.
  - rewrite Hany, present_rows_map. reflexivity.
Qed.

Lemma kbins_missing (x : series) (n : Z) :
  existsb isna x = true ->
  kbins_fit_transform ar kmeans_centers x n = Raise ValueError.
Proof.
  intros H. unfold kbins_fit_transform. rewrite H.
  destruct (n <? 2)%Z; [reflexivity|].
  destruct (Z.of_nat (length x) =? 0)%Z; reflexivity.
Qed.

Lemma kbins_rows (x : series) (n : Z) (b : buckets) :
  kbins_fit_transform ar kmeans_centers x n = Ok b ->
  existsb isna x = false /\
  length b = length x /\
  (forall i v, x !! i = Some (Some v) -> exists k, b !! i = Some (Some k)).
Proof.
  unfold kbins_fit_transform.
  destruct (n <? 2)%Z; [discriminate|].
  destruct (Z.of_nat (length x) =? 0)%Z; [discriminate|].
  destruct (existsb isna x) eqn:Ena; [discriminate|].
  destruct (nanmin (dropna x)) as [col_min|]; [|discriminate].
  destruct (nanmax (dropna x)) as [col_max|]; [|discriminate].
  intros H. split; [reflexivity|].
  destruct (Qeq_bool col_min col_max).
  - injection H as <-. split; [apply length_map|].
    intros i v Hi. rewrite list_lookup_fmap, Hi. simpl. eauto.
  - destruct (Z.of_nat (length x) <? n)%Z; [discriminate|].
    injection H as <-.
    pose proof (no_missing_dropna x Ena) as Hx. split.
    + rewrite <- Hx at 2. rewrite !length_map. reflexivity.
    + intros i v Hi. rewrite <- Hx in Hi.
      rewrite list_lookup_fmap in Hi.
      destruct (dropna x !! i) as [w|] eqn:Ew; [|discriminate].
      rewrite list_lookup_fmap, Ew. simpl. eauto.
Qed.

(** C5. The k-means strategy does not put the missing-marker on a missing
    row: on every column that has a missing row it raises ValueError and
    produces no output at all, whatever the number of bins.  (The column
    is handed to [KBinsDiscretizer] as it is, and its input validation
    rejects NaN.) *)
Theorem discretize_feature_kmeans_missing_raises (data : frame)
    (feature : string) (col : series) (n_bins : Z)
    (custom_bins : option (list Q)) (i : nat) :
  data !! feature = Some col -> col !! i = Some None ->
  discretize_feature ar quantile_edge kmeans_centers data feature "kmeans"
    n_bins custom_bins
  = Raise ValueError.
Proof.
  intros Hcol Hi. unfold discretize_feature, getitem. simpl.
  rewrite Hcol. simpl. apply kbins_missing.
  eapply has_missing_existsb. exact Hi.
Qed.

(** X24. For every strategy, whenever [discretize_feature] returns, the
    result has one entry per input row and every missing input row holds
    the missing-marker.  For the three pandas strategies missing values
    take no part in the edges: the rows of non-missing values are the
    result of discretizing the column with its missing rows removed. *)
Theorem discretize_feature_missing_marker (data : frame) (feature : string)
    (col : series) (method : string) (n_bins : Z)
    (custom_bins : option (list Q)) (b : buckets) :
  data !! feature = Some col ->
  discretize_feature ar quantile_edge kmeans_centers data feature method
    n_bins custom_bins = Ok b ->
  length b = length col /\
  (forall i, col !! i = Some None -> b !! i = Some None) /\
  (method <> "kmeans"%string -> dropna col <> [] ->
   discretize_feature ar quantile_edge kmeans_centers
     (<[feature := map Some (dropna col)]> data) feature method n_bins
     custom_bins = Ok (present_rows col b)).
Proof.
  intros Hcol. unfold discretize_feature, getitem.
  rewrite lookup_insert_eq, Hcol. cbn [mbind result_bind rbind].
  destruct (String.eqb method "equal_width") eqn:E1.
  { intros H. apply cut_nbins_rows in H as (Hlen & Hmiss & Hdrop).
    repeat split; auto. }
  destruct (String.eqb method "equal_frequency") eqn:E2.
  { intros H. apply qcut_rows in H as (_ & Hlen & Hmiss & Hdrop).
    repeat split; auto. }
  destruct (String.eqb method "kmeans") eqn:E3.
  { apply String.eqb_eq in E3. subst method. intros H.
    apply kbins_rows in H as (Hna & Hlen & Hval).
    repeat split; auto.
    - intros i Hi. exfalso. exact (no_missing_lookup col i Hna Hi).
    - intros Hne. congruence. }
  destruct (String.eqb method "custom" && truthy custom_bins) eqn:E4;
    [|discriminate].
  intros H. apply cut_bins_rows in H as (Hlen & Hmiss & Hdrop).
  repeat split; auto.
Qed.

(** *** The checks on custom edges *)

Lemma monotonic_non_decreasing (bins : list Q) :
  is_monotonic_increasing bins = true <-> non_decreasing bins.
Proof.
  induction bins as [|a r IH].
  { split; [|reflexivity]. intros _ i x y Hx. rewrite lookup_nil in Hx.
    discriminate. }
  destruct r as [|b r'].
  - split; [|reflexivity]. intros _ [|i] x y Hx Hy; simpl in Hy; done.
  - cbn [is_monotonic_increasing]. rewrite andb_true_iff, IH, Qle_bool_iff.
    split.
    + intros [Hab Hr] [|i] x y Hx Hy.
      * simpl in Hx, Hy. congruence.
      * apply (Hr i); assumption.
    + intros H. split.
      * apply (H O); reflexivity.
      * intros i x y Hx Hy. apply (H (S i)); assumption.
Qed.

Lemma length_filter_le {A} (f : A -> bool) (l : list A) :
  (length (List.filter f l) <= length l)%nat.
Proof.
  induction l as [|a l IH]; simpl; [lia|]. destruct (f a); simpl; lia.
Qed.

Lemma length_filter_lt {A} (f : A -> bool) (l : list A) :
  (length (List.filter f l) < length l)%nat <->
  exists y, In y l /\ f y = false.
Proof.
  induction l as [|a l IH]; simpl.
  - split; [lia | intros (y & [] & _)].
  - pose proof (length_filter_le f l) as Hle.
    destruct (f a) eqn:Ea; simpl.
    + rewrite <- Nat.succ_lt_mono, IH. split.
      * intros (y & Hy & Hf). eauto.
      * intros (y & [<-|Hy] & Hf); [congruence | eauto].
    + split; [intros _; eauto | lia].
Qed.

Lemma unique_In (l : list Q) (y : Q) : In y (unique l) -> In y l.
Proof.
  revert y. induction l as [|x r IH]; simpl; intros y; [tauto|].
  intros [->|Hy]; [auto|]. apply filter_In in Hy as [Hy _]. auto.
Qed.

Lemma unique_covers (l : list Q) (y : Q) :
  In y l -> exists y', In y' (unique l) /\ y' == y.
Proof.
  induction l as [|x r IH]; simpl; [tauto|].
  intros [->|Hy].
  - exists y. split; [auto | reflexivity].
  - destruct (IH Hy) as (y' & Hy' & Heq).
    destruct (Qeq_bool x y') eqn:E.
    + apply Qeq_bool_iff in E. exists x. split; [auto | lra].
    + exists y'. split; [|assumption]. right.
      apply filter_In. split; [assumption|]. rewrite E. reflexivity.
Qed.

Lemma unique_length_le (l : list Q) : (length (unique l) <= length l)%nat.
Proof.
  induction l as [|x r IH]; simpl; [lia|].
  pose proof (length_filter_le (fun y => negb (Qeq_bool x y)) (unique r)).
  lia.
Qed.

Lemma unique_shorter (l : list Q) :
  (length (unique l) < length l)%nat <-> has_repeated_edge l.
Proof.
  induction l as [|x r IH].
  - simpl. split; [lia|]. intros (i & j & a & b & _ & Hi & _).
    rewrite lookup_nil in Hi. discriminate.
  - cbn [unique length].
    pose proof (unique_length_le r) as Hle.
    pose proof (length_filter_le (fun y => negb (Qeq_bool x y)) (unique r))
      as Hfle.
    split.
    + intros Hlt.
      destruct (decide (length (unique r) < length r)%nat) as [Hr|Hr].
      * apply IH in Hr as (i & j & a & b & Hij & Hi & Hj & Hab).
        exists (S i), (S j), a, b. repeat split; [lia | | | ]; assumption.
      * assert (Hf : (length (List.filter (fun y => negb (Qeq_bool x y))
                                (unique r)) < length (unique r))%nat) by lia.
        apply length_filter_lt in Hf as (y & Hy & Hxy).
        apply negb_false_iff, Qeq_bool_iff in Hxy.
        apply unique_In, list_elem_of_In, list_elem_of_lookup in Hy as [j Hj].
        exists O, (S j), x, y. repeat split; [lia | | ]; assumption.
    + intros (i & j & a & b & Hij & Hi & Hj & Hab).
      destruct j as [|j]; [lia|]. simpl in Hj.
      destruct i as [|i]; simpl in Hi.
      * injection Hi as ->.
        assert (Hb : In b r).
        { apply list_elem_of_In, list_elem_of_lookup. eauto. }
        destruct (unique_covers r b Hb) as (b' & Hb' & Hbb).
        assert (Hf : (length (List.filter (fun y => negb (Qeq_bool a y))
                                (unique r)) < length (unique r))%nat).
        { apply length_filter_lt. exists b'. split; [assumption|].
          apply negb_false_iff, Qeq_bool_iff. lra. }
        lia.
      * assert (Hr : has_repeated_edge r).
        { exists i, j, a, b. repeat split; [lia | | | ]; assumption. }
        apply IH in Hr. lia.
Qed.

Lemma duplicate_check (bins : list Q) :
  (len (unique bins) <? len bins)%Z && negb (len bins =? 2)%Z = true <->
  has_repeated_edge bins /\ length bins <> 2%nat.
Proof.
  unfold len.
  rewrite andb_true_iff, negb_true_iff, Z.ltb_lt, Z.eqb_neq,
    <- unique_shorter.
  split; intros [H1 H2]; split; lia.
Qed.

Lemma custom_unfold (data : frame) (feature : string) (col : series)
    (n_bins : Z) (bins : list Q) :
  data !! feature = Some col -> bins <> [] ->
  discretize_feature ar quantile_edge kmeans_centers data feature "custom"
      n_bins (Some bins)
  = cut_bins col bins.
Proof.
  intros Hcol Hne. unfold discretize_feature, getitem. simpl.
  destruct bins as [|b0 r]; [contradiction|]. simpl. rewrite Hcol.
  reflexivity.
Qed.

Lemma strictly_increasing_valid (bins : list Q) :
  bins <> [] -> strictly_increasing bins ->
  ~ invalid_custom_bins (Some bins).
Proof.
  intros Hne Hinc [Hnil|[Hdec|[Hrep _]]].
  - contradiction.
  - apply Hdec. apply monotonic_non_decreasing.
    apply monotonic_strictly_increasing. assumption.
  - destruct Hrep as (i & j & a & b & Hij & Hi & Hj & Hab).
    pose proof (Hinc i j a b Hij Hi Hj). lra.
Qed.

(** C7 (as amended). [discretize_feature] raises ValueError when the
    strategy name is none of the four; with the custom strategy it raises
    ValueError exactly when the edges are missing, empty, decreasing
    somewhere, or contain a repeated edge while their number is not two,
    and returns a result otherwise, in particular for every non-empty
    strictly increasing list of edges. *)
Theorem discretize_feature_invalid_configuration (data : frame)
    (feature : string) (col : series) (method : string) (n_bins : Z)
    (custom_bins : option (list Q)) :
  data !! feature = Some col ->
  (method <> "equal_width"%string -> method <> "equal_frequency"%string ->
   method <> "kmeans"%string -> method <> "custom"%string ->
   discretize_feature ar quantile_edge kmeans_centers data feature method
       n_bins custom_bins
   = Raise ValueError) /\
  (invalid_custom_bins custom_bins ->
   discretize_feature ar quantile_edge kmeans_centers data feature "custom"
       n_bins custom_bins = Raise ValueError) /\
  (~ invalid_custom_bins custom_bins ->
   exists b : buckets,
     discretize_feature ar quantile_edge kmeans_centers data feature "custom"
         n_bins custom_bins = Ok b) /\
  (forall bins, custom_bins = Some bins -> bins <> [] ->
     strictly_increasing bins -> ~ invalid_custom_bins custom_bins).
Proof.
  intros Hcol. split; [|split; [|split]].
  - intros H1 H2 H3 H4. unfold discretize_feature.
    apply String.eqb_neq in H1, H2, H3, H4.
    rewrite H1, H2, H3, H4. reflexivity.
  - destruct custom_bins as [bins|]; [|reflexivity].
    destruct (decide (bins = [])) as [->|Hne]; [reflexivity|].
    rewrite (custom_unfold data feature col) by assumption.
    unfold cut_bins, bins_to_cuts.
    intros [Hnil|[Hdec|Hrep]]; [contradiction| | ].
    + rewrite <- monotonic_non_decreasing in Hdec.
      apply not_true_is_false in Hdec. rewrite Hdec. reflexivity.
    + apply duplicate_check in Hrep. rewrite Hrep.
      destruct (is_monotonic_increasing bins); reflexivity.
  - destruct custom_bins as [bins|]; [|intros H; exfalso; apply H; exact I].
    intros Hvalid.
    assert (Hne : bins <> []).
    { intros ->. apply Hvalid. left. reflexivity. }
    rewrite (custom_unfold data feature col) by assumption.
    unfold cut_bins, bins_to_cuts.
    destruct (is_monotonic_increasing bins) eqn:Emono.
    + destruct ((len (unique bins) <? len bins)%Z
                && negb (len bins =? 2)%Z) eqn:Edup.
      * exfalso. apply Hvalid. right. right.
        apply duplicate_check. exact Edup.
      * simpl. eauto.
    + exfalso. apply Hvalid. right. left.
      rewrite <- monotonic_non_decreasing. congruence.
  - intros bins -> Hne Hinc. apply strictly_increasing_valid; assumption.
Qed.

(** *** Batch discretization on the heap *)

Lemma setitem_lookup_ne (r l : ref) (feature : string) (col : series)
    (h : heap) :
  l <> r -> setitem r feature col h !! l = h !! l.
Proof. intros Hne. unfold setitem. apply lookup_insert_ne. congruence. Qed.

Lemma setitem_total_ne (r l : ref) (feature : string) (col : series)
    (h : heap) :
  l <> r -> setitem r feature col h !!! l = h !!! l.
Proof.
  intros Hne. unfold setitem. apply lookup_total_insert_ne. congruence.
Qed.

Lemma setitem_total_eq (r : ref) (feature : string) (col : series)
    (h : heap) :
  setitem r feature col h !!! r = <[feature := col]> (h !!! r).
Proof. unfold setitem. apply lookup_total_insert_eq. Qed.

(** The loop writes to [result_data] only, and there only to the columns
    that the configuration names. *)
Lemma batch_loop_inv (data res : ref) (items : list (string * config))
    (h h' : heap) (r : result ()) :
  batch_loop ar quantile_edge kmeans_centers data res items h = (h', r) ->
  (forall l, l <> res -> h' !! l = h !! l) /\
  (forall c, c ∉ items.*1 -> (h' !!! res) !! c = (h !!! res) !! c) /\
  (is_Some (h !! res) -> is_Some (h' !! res)).
Proof.
  revert h. induction items as [|[feature c] rest IH]; simpl; intros h H.
  - injection H as <- <-. auto.
  - destruct (has_column (h !!! data) feature).
    + destruct (discretize_with ar quantile_edge kmeans_centers (h !!! data)
        feature c)
        as [col|e].
      * apply IH in H as (Hframe & Hcols & Hsome). repeat split.
        -- intros l Hl. rewrite Hframe by assumption.
           apply setitem_lookup_ne. assumption.
        -- intros c' Hc'. apply not_elem_of_cons in Hc' as [Hne Hc'].
           rewrite Hcols by assumption. rewrite setitem_total_eq.
           apply lookup_insert_ne. congruence.
        -- intros Hs. apply Hsome. unfold setitem.
           rewrite lookup_insert_eq. eauto.
      * injection H as <- <-. auto.
    + apply IH in H as (Hframe & Hcols & Hsome). repeat split; auto.
      intros c' Hc'. apply not_elem_of_cons in Hc' as [_ Hc']. auto.
Qed.

(** C9. [batch_discretize] leaves every table that existed before the
    call as it was, the caller's input table included; the table it
    returns is a new object, and each of its columns that the
    configuration does not name equals the input's column. *)
Theorem batch_discretize_frame (data : ref)
    (features_config : list (string * config)) (h h' : heap) (df : frame)
    (r : result ref) :
  h !! data = Some df ->
  batch_discretize ar quantile_edge kmeans_centers data features_config h =
      (h', r) ->
  (forall l, is_Some (h !! l) -> h' !! l = h !! l) /\
  (forall res, r = Ok res ->
     h !! res = None /\
     exists df' : frame,
       h' !! res = Some df' /\
       forall c, c ∉ features_config.*1 -> df' !! c = df !! c).
Proof.
  intros Hdata. unfold batch_discretize, df_copy.
  set (res := fresh (dom h)).
  assert (Hfresh : h !! res = None).
  { apply not_elem_of_dom. apply is_fresh. }
  rewrite (lookup_total_correct h data df Hdata).
  destruct (batch_loop ar quantile_edge kmeans_centers data res features_config
              (<[res := df]> h)) as [h2 r2] eqn:Hloop.
  intros [= <- <-].
  apply batch_loop_inv in Hloop as (Hframe & Hcols & Hsome).
  split.
  - intros l [fr Hl].
    assert (Hne : l <> res) by congruence.
    rewrite Hframe by assumption. apply lookup_insert_ne. congruence.
  - intros res' Hres'. destruct r2 as [[]|e]; simpl in Hres';
      [|discriminate].
    injection Hres' as <-. split; [assumption|].
    destruct Hsome as [df' Hdf'].
    { rewrite lookup_insert_eq. eauto. }
    exists df'. split; [assumption|]. intros c Hc.
    specialize (Hcols c Hc).
    rewrite (lookup_total_correct _ _ _ Hdf') in Hcols.
    rewrite lookup_total_insert_eq in Hcols. exact Hcols.
Qed.

Lemma batch_loop_skip (data res : ref) (feature : string) (c : config)
    (before after : list (string * config)) (h : heap) :
  data <> res -> (h !!! data) !! feature = None ->
  batch_loop ar quantile_edge kmeans_centers data res (before ++ (feature, c)
      :: after) h
  = batch_loop ar quantile_edge kmeans_centers data res (before ++ after) h.
Proof.
  intros Hne. revert h.
  induction before as [|[f0 c0] before IH]; simpl; intros h Habsent.
  - unfold has_column. rewrite Habsent. reflexivity.
  - destruct (has_column (h !!! data) f0); [|auto].
    destruct (discretize_with ar quantile_edge kmeans_centers (h !!! data) f0
        c0)
      as [col|e]; [|reflexivity].
    apply IH. rewrite setitem_total_ne by assumption. exact Habsent.
Qed.

(** C8. An entry of the configuration whose feature is not a column of
    the dataset is skipped: the call behaves, heap and result, as if the
    entry were not in the configuration. *)
Theorem batch_discretize_skips_absent (data : ref) (feature : string)
    (c : config) (before after : list (string * config)) (h : heap)
    (df : frame) :
  h !! data = Some df -> df !! feature = None ->
  batch_discretize ar quantile_edge kmeans_centers data (before ++ (feature, c)
      :: after) h
  = batch_discretize ar quantile_edge kmeans_centers data (before ++ after) h.
Proof.
  intros Hdata Habsent. unfold batch_discretize, df_copy.
  set (res := fresh (dom h)).
  assert (Hne : data <> res).
  { intros Heq. pose proof (is_fresh (dom h)) as Hf. fold res in Hf.
    apply Hf. rewrite <- Heq. apply elem_of_dom. eauto. }
  rewrite batch_loop_skip; [reflexivity | assumption |].
  rewrite lookup_total_insert_ne by congruence.
  rewrite (lookup_total_correct h data df Hdata). exact Habsent.
Qed.

End DiscretizerFacts.

(** ** Equal width: closed instances *)

Section EqualWidthInstances.

Import Discretizer.
Local Open Scope Q_scope.

(** C3, counterexample. On the constant column [10, 10, 10, 10] with five
    bins the minimum and the maximum coincide, and every value is assigned
    bucket 2, not bucket 0. *)
Lemma equal_width_constant_column_counterexample :
  nanmin (dropna all_tens) = Some 10 /\
  nanmax (dropna all_tens) = Some 10 /\
  discretize_feature binary64 linear_quantile no_kmeans (table_x all_tens)
    "x" "equal_width" 5 None
  = Ok [Some 2; Some 2; Some 2; Some 2]%Z /\
  discretize_feature binary64 linear_quantile no_kmeans (table_x all_tens)
    "x" "equal_width" 5 None
  <> Ok [Some 0; Some 0; Some 0; Some 0]%Z.
Proof.
  split; [reflexivity|]. split; [reflexivity|].
  split; [vm_compute; reflexivity|]. vm_compute. discriminate.
Qed.

(** In float64 rounding can leave the lowered first edge at the minimum:
    on [1.0, 1.00000000000001] with two bins 0.1% of the range is less
    than half a unit in the last place of 1.0, the first edge is 1.0, and
    the minimum gets the missing-marker. *)
Example equal_width_minimum_masked :
  (exists e0, nbins_to_bins binary64 1 next_to_one 2 !! 0%nat = Some e0 /\
              e0 == 1) /\
  discretize_feature binary64 linear_quantile no_kmeans
    (table_x [Some 1; Some next_to_one]) "x" "equal_width" 2 None
  = Ok [None; Some 1%Z].
Proof.
  split; [|vm_compute; reflexivity].
  eexists. split; [vm_compute; reflexivity | reflexivity].
Qed.

(** In float64 the window around a constant value is not symmetric after
    rounding: [31.99, 31.99, 31.99] with two bins lands in bucket 1, where
    the same column lands in bucket 0 without rounding. *)
Example equal_width_constant_rounding :
  discretize_feature binary64 linear_quantile no_kmeans
    (table_x [Some float_31_99; Some float_31_99; Some float_31_99])
    "x" "equal_width" 2 None
  = Ok [Some 1; Some 1; Some 1]%Z /\
  discretize_feature exact linear_quantile no_kmeans
    (table_x [Some float_31_99; Some float_31_99; Some float_31_99])
    "x" "equal_width" 2 None
  = Ok [Some 0; Some 0; Some 0]%Z.
Proof. split; vm_compute; reflexivity. Qed.

(** C4, counterexample. For [1..10] and five bins the first edge is not 1
    and the buckets are not [0,0,1,2,3,3,4,4,4,4], in float64 as in exact
    arithmetic. *)
Lemma equal_width_example_counterexample :
  ~ Forall2 Qeq (nbins_to_bins exact 1 10 5) [1; 2.8; 4.6; 6.4; 8.2; 10] /\
  (forall e0, nbins_to_bins binary64 1 10 5 !! 0%nat = Some e0 -> e0 < 1) /\
  discretize_feature exact linear_quantile no_kmeans (table_x one_to_ten)
    "x" "equal_width" 5 None
  <> Ok [Some 0; Some 0; Some 1; Some 2; Some 3; Some 3;
         Some 4; Some 4; Some 4; Some 4]%Z /\
  discretize_feature binary64 linear_quantile no_kmeans
    (table_x one_to_ten) "x" "equal_width" 5 None
  <> Ok [Some 0; Some 0; Some 1; Some 2; Some 3; Some 3;
         Some 4; Some 4; Some 4; Some 4]%Z.
Proof.
  split; [|split; [|split]].
  - intros H. apply Forall2_cons_1 in H as [H _]. vm_compute in H.
    discriminate.
  - intros e0 H. vm_compute in H. injection H as <-. reflexivity.
  - vm_compute. discriminate.
  - vm_compute. discriminate.
Qed.


End EqualWidthInstances.

(** C4 (as amended). For [1..10] and five bins, the edges of the equal-width
    strategy are [0.991, 2.8, 4.6, 6.4, 8.2, 10]: these rationals in exact
    arithmetic, and in float64 the floats that these decimals denote.  The
    bucket assignment is [0,0,1,1,2,2,3,3,4,4] under both. *)
Theorem equal_width_example
    (quantile_edge : list Q -> Z -> nat -> Q)
    (kmeans_centers : list Q -> Z -> list Q) :
  Forall2 Qeq (Discretizer.nbins_to_bins Discretizer.exact 1 10 5)
    [0.991; 2.8; 4.6; 6.4; 8.2; 10]%Q /\
  Discretizer.nbins_to_bins Discretizer.binary64 1 10 5
  = map (Discretizer.fl_lit Discretizer.binary64)
      [0.991; 2.8; 4.6; 6.4; 8.2]%Q ++ [10%Q] /\
  Discretizer.discretize_feature Discretizer.exact quantile_edge
    kmeans_centers (table_x one_to_ten) "x" "equal_width" 5 None
  = Ok [Some 0; Some 0; Some 1; Some 1; Some 2; Some 2;
        Some 3; Some 3; Some 4; Some 4]%Z /\
  Discretizer.discretize_feature Discretizer.binary64 quantile_edge
    kmeans_centers (table_x one_to_ten) "x" "equal_width" 5 None
  = Ok [Some 0; Some 0; Some 1; Some 1; Some 2; Some 2;
        Some 3; Some 3; Some 4; Some 4]%Z.
Proof.
  split; [|split; [|split]].
  - repeat constructor; vm_compute; reflexivity.
  - vm_compute. reflexivity.
  - vm_compute. reflexivity.
  - vm_compute. reflexivity.
Qed.

(** ** Label encoding *)

Section LabelEncodingFacts.

Import LabelEncoding.

Variable str_of_number : option Q -> label.
Variable str_of_missing : cell -> label.

Lemma label_eqb_eq (a b : label) : label_eqb a b = true <-> a = b.
Proof.
  destruct a as [s|], b as [t|]; simpl; try (split; congruence).
  rewrite String.eqb_eq. split; congruence.
Qed.

Lemma label_eqb_neq (a b : label) : label_eqb a b = false <-> a <> b.
Proof.
  rewrite <- label_eqb_eq. destruct (label_eqb a b); split; congruence.
Qed.

Lemma In_insert_by {A} (le : A -> A -> bool) (x a : A) (l : list A) :
  In x (insert_by le a l) <-> x = a \/ In x l.
Proof.
  induction l as [|y r IH]; simpl.
  - intuition.
  - destruct (le a y); simpl; rewrite ?IH; intuition.
Qed.

Lemma In_sort_by {A} (le : A -> A -> bool) (x : A) (l : list A) :
  In x (sort_by le l) <-> In x l.
Proof.
  unfold sort_by. induction l as [|a l IH]; simpl; [tauto|].
  rewrite In_insert_by, IH. intuition.
Qed.

Lemma In_dedup_sorted (x : label) (l : list label) :
  In x l -> In x (dedup_sorted l).
Proof.
  induction l as [|a r IH]; [tauto|].
  destruct r as [|b r']; [tauto|].
  cbn [dedup_sorted]. intros [->|Hx].
  - destruct (label_eqb x b) eqn:E.
    + apply label_eqb_eq in E. subst b. apply IH. left. reflexivity.
    + left. reflexivity.
  - destruct (label_eqb a b); [|right]; apply IH; exact Hx.
Qed.

Lemma In_sk_unique (x : label) (l : list label) :
  In x l -> In x (sk_unique l).
Proof.
  intros H. unfold sk_unique. apply In_dedup_sorted, In_sort_by. exact H.
Qed.

Lemma index_of_In (s : label) (classes : list label) :
  In s classes ->
  exists k : nat, index_of s classes = Some k /\ classes !! k = Some s.
Proof.
  induction classes as [|c r IH]; simpl; [tauto|].
  destruct (label_eqb s c) eqn:E.
  - intros _. apply label_eqb_eq in E. subst c. exists O. auto.
  - intros [Hc|Hs].
    + apply label_eqb_neq in E. congruence.
    + destruct (IH Hs) as (k & Hk & Hlk). exists (S k).
      rewrite Hk. auto.
Qed.

(** The code of a value that occurs in the fitted column. *)
Lemma transform_fit_lookup (y : list label) (i : nat) (s : label) :
  y !! i = Some s ->
  exists k : nat,
    fit y !! k = Some s /\
    transform (fit y) y !! i = Some (Some (inject_Z (Z.of_nat k))).
Proof.
  intros Hi.
  assert (Hin : In s (fit y)).
  { apply In_sk_unique, list_elem_of_In, list_elem_of_lookup. eauto. }
  destruct (index_of_In s (fit y) Hin) as (k & Hk & Hlk).
  exists k. split; [assumption|].
  unfold transform. rewrite list_lookup_fmap, Hi. simpl. rewrite Hk.
  reflexivity.
Qed.

Lemma encode_step_other (st : frame * encoders) (col c : string) :
  c <> col ->
  (encode_step str_of_number str_of_missing st col).1 !! c = st.1 !! c /\
  (encode_step str_of_number str_of_missing st col).2 !! c = st.2 !! c.
Proof.
  intros Hne. destruct st as [df encs]. unfold encode_step.
  destruct (df !! col); simpl; [|auto].
  rewrite !lookup_insert_ne by congruence. auto.
Qed.

Lemma foldl_encode_other (cols : list string) (st : frame * encoders)
    (c : string) :
  c ∉ cols ->
  (foldl (encode_step str_of_number str_of_missing) st cols).1 !! c
    = st.1 !! c /\
  (foldl (encode_step str_of_number str_of_missing) st cols).2 !! c
    = st.2 !! c.
Proof.
  revert st. induction cols as [|col cols IH]; simpl; intros st Hc; [auto|].
  apply not_elem_of_cons in Hc as [Hne Hc].
  destruct (IH (encode_step str_of_number str_of_missing st col) Hc)
    as [H1 H2].
  destruct (encode_step_other st col c Hne) as [H3 H4].
  split; congruence.
Qed.

Lemma foldl_encode_at (cols : list string) (st : frame * encoders)
    (c : string) (x : column) :
  NoDup cols -> c ∈ cols -> st.1 !! c = Some x ->
  let y := astype_str str_of_number str_of_missing x in
  (foldl (encode_step str_of_number str_of_missing) st cols).1 !! c
    = Some (Numeric (transform (fit y) y)) /\
  (foldl (encode_step str_of_number str_of_missing) st cols).2 !! c
    = Some (fit y).
Proof.
  intros Hnd Hc Hx y. revert st Hx.
  induction cols as [|col cols IH]; intros st Hx.
  - apply elem_of_nil in Hc. destruct Hc.
  - apply NoDup_cons in Hnd as [Hnotin Hnd]. simpl.
    destruct (decide (c = col)) as [<-|Hne].
    + destruct (foldl_encode_other cols
                  (encode_step str_of_number str_of_missing st c) c
                  Hnotin) as [H1 H2].
      rewrite H1, H2. destruct st as [df encs]. simpl in Hx.
      unfold encode_step. rewrite Hx. simpl.
      rewrite !lookup_insert_eq. auto.
    + apply elem_of_cons in Hc as [Hc|Hc]; [contradiction|].
      apply IH; [assumption..|].
      destruct (encode_step_other st col c Hne) as [H3 _]. congruence.
Qed.

Lemma non_numeric_columns_spec (df : frame) (c : string) (x : column) :
  df !! c = Some x -> is_numeric x = false -> c ∈ non_numeric_columns df.
Proof.
  intros Hc Hx. unfold non_numeric_columns.
  apply list_elem_of_fmap. exists (c, x). split; [reflexivity|].
  apply elem_of_map_to_list. apply map_lookup_filter_Some. auto.
Qed.

End LabelEncodingFacts.

(** ** Closed instances: missing values, configurations, batches, labels *)

Section ClosedInstances.

Import Discretizer.
Local Open Scope Q_scope.

Lemma discretize_feature_kmeans_missing_raises_witness :
  table_x with_null !! "x"%string = Some with_null /\
  with_null !! 2%nat = Some None /\
  discretize_feature binary64 linear_quantile no_kmeans (table_x with_null)
    "x" "kmeans" 2 None
  = Raise ValueError.
Proof.
  split; [reflexivity|]. split; [reflexivity|].
  apply (discretize_feature_kmeans_missing_raises binary64 linear_quantile
           no_kmeans (table_x with_null) "x" with_null 2 None 2%nat);
    reflexivity.
Defined.

Lemma equal_width_with_null_run :
  discretize_feature binary64 linear_quantile no_kmeans (table_x with_null)
    "x" "equal_width" 2 None
  = Ok [Some 0; Some 0; None; Some 1; Some 1]%Z.
Proof. vm_compute. reflexivity. Qed.

Lemma discretize_feature_missing_marker_witness :
  table_x with_null !! "x"%string = Some with_null /\
  discretize_feature binary64 linear_quantile no_kmeans (table_x with_null)
    "x" "equal_width" 2 None
  = Ok [Some 0; Some 0; None; Some 1; Some 1]%Z /\
  length [Some 0; Some 0; None; Some 1; Some 1]%Z = length with_null /\
  (forall i, with_null !! i = Some None ->
     [Some 0; Some 0; None; Some 1; Some 1]%Z !! i = Some None) /\
  ("equal_width"%string <> "kmeans"%string -> dropna with_null <> [] ->
   discretize_feature binary64 linear_quantile no_kmeans
     (<["x"%string := map Some (dropna with_null)]> (table_x with_null))
     "x" "equal_width" 2 None
   = Ok (present_rows with_null
           [Some 0; Some 0; None; Some 1; Some 1]%Z)).
Proof.
  split; [reflexivity|]. split; [exact equal_width_with_null_run|].
  apply (discretize_feature_missing_marker binary64 linear_quantile
           no_kmeans (table_x with_null) "x" with_null "equal_width" 2 None
           [Some 0; Some 0; None; Some 1; Some 1]%Z);
    [reflexivity | exact equal_width_with_null_run].
Defined.

(** C7, counterexample. The edges [5, 5] are not strictly increasing, yet
    the custom strategy returns (every row masked) instead of failing;
    and a known strategy fails with the same error on [n_bins = 0]. *)
Lemma invalid_configuration_counterexample :
  ~ strictly_increasing [5; 5] /\
  discretize_feature binary64 linear_quantile no_kmeans (table_x with_null) "x"
      "custom" 5
    (Some [5; 5]) = Ok [None; None; None; None; None] /\
  discretize_feature binary64 linear_quantile no_kmeans (table_x with_null) "x"
      "equal_width" 0 None
  = Raise ValueError.
Proof.
  split; [|split; vm_compute; reflexivity].
  intros H. specialize (H 0%nat 1%nat 5 5). simpl in H.
  assert (Hlt : 5 < 5) by (apply H; [lia | reflexivity | reflexivity]).
  lra.
Qed.

Lemma discretize_feature_invalid_configuration_witness :
  table_x with_null !! "x"%string = Some with_null /\
  (("median"%string <> "equal_width"%string ->
    "median"%string <> "equal_frequency"%string ->
    "median"%string <> "kmeans"%string ->
    "median"%string <> "custom"%string ->
    discretize_feature binary64 linear_quantile no_kmeans (table_x with_null)
        "x" "median" 5
      (Some [3; 1]) = Raise ValueError) /\
   (invalid_custom_bins (Some [3; 1]) ->
    discretize_feature binary64 linear_quantile no_kmeans (table_x with_null)
        "x" "custom" 5
      (Some [3; 1]) = Raise ValueError) /\
   (~ invalid_custom_bins (Some [3; 1]) ->
    exists b : buckets,
      discretize_feature binary64 linear_quantile no_kmeans (table_x with_null)
          "x" "custom" 5
        (Some [3; 1]) = Ok b) /\
   (forall bins, Some [3; 1] = Some bins -> bins <> [] ->
      strictly_increasing bins -> ~ invalid_custom_bins (Some [3; 1]))).
Proof.
  split; [reflexivity|].
  apply (discretize_feature_invalid_configuration binary64 linear_quantile
      no_kmeans
           (table_x with_null) "x" with_null "median" 5 (Some [3; 1])).
  reflexivity.
Defined.

Lemma batch_discretize_skips_absent_witness :
  one_table one_to_ten !! 0%nat = Some (table_x one_to_ten) /\
  table_x one_to_ten !! "y"%string = None /\
  batch_discretize binary64 linear_quantile no_kmeans 0%nat
    ([("x"%string, Config None None None)]
     ++ ("y"%string, Config (Some "kmeans"%string) (Some 4%Z) None) :: [])
    (one_table one_to_ten)
  = batch_discretize binary64 linear_quantile no_kmeans 0%nat
      ([("x"%string, Config None None None)] ++ [])
      (one_table one_to_ten).
Proof.
  split; [reflexivity|]. split; [reflexivity|].
  apply (batch_discretize_skips_absent binary64 linear_quantile no_kmeans 0%nat
      "y"
           (Config (Some "kmeans"%string) (Some 4%Z) None)
           [("x"%string, Config None None None)] []
           (one_table one_to_ten) (table_x one_to_ten));
    reflexivity.
Defined.

Lemma batch_discretize_frame_witness :
  one_table one_to_ten !! 0%nat = Some (table_x one_to_ten) /\
  batch_discretize binary64 linear_quantile no_kmeans 0%nat [("x"%string,
      Config None None None)]
    (one_table one_to_ten) = (after_batch, Ok 1%nat) /\
  (forall l, is_Some (one_table one_to_ten !! l) ->
     after_batch !! l = one_table one_to_ten !! l) /\
  (forall res, Ok 1%nat = Ok res ->
     one_table one_to_ten !! res = None /\
     exists df' : frame,
       after_batch !! res = Some df' /\
       forall c, c ∉ [("x"%string, Config None None None)].*1 ->
         df' !! c = table_x one_to_ten !! c).
Proof.
  assert (Hrun : batch_discretize binary64 linear_quantile no_kmeans 0%nat
                   [("x"%string, Config None None None)]
                   (one_table one_to_ten) = (after_batch, Ok 1%nat))
    by (vm_compute; reflexivity).
  split; [reflexivity|]. split; [exact Hrun|].
  apply (batch_discretize_frame binary64 linear_quantile no_kmeans 0%nat
           [("x"%string, Config None None None)] (one_table one_to_ten)
           after_batch (table_x one_to_ten) (Ok 1%nat));
    [reflexivity | exact Hrun].
Defined.

End ClosedInstances.

(** ** Treatment and churn labels *)

Section LabelTransformFacts.

Import Discretizer LabelTransforms.
Local Open Scope Q_scope.

Lemma copy_run (df : ref) (h : heap) (d : frame) :
  h !! df = Some d ->
  copy df h = (<[fresh (dom h) := d]> h, Ok (fresh (dom h))).
Proof.
  intros Hdf. unfold copy, df_copy.
  rewrite (lookup_total_correct h df d Hdf). reflexivity.
Qed.

Lemma fresh_lookup (h : heap) : h !! fresh (dom h) = None.
Proof. apply not_elem_of_dom. apply is_fresh. Qed.

Lemma fresh_insert_lookup (h : heap) (r : ref) (d : frame) :
  h !! fresh (dom (<[r := d]> h)) = None /\
  fresh (dom (<[r := d]> h)) <> r.
Proof.
  pose proof (fresh_lookup (<[r := d]> h)) as H.
  destruct (decide (r = fresh (dom (<[r := d]> h)))) as [E|E].
  - rewrite <- E in H. rewrite lookup_insert_eq in H. discriminate.
  - rewrite lookup_insert_ne in H by exact E. split; [exact H | congruence].
Qed.

(** The whole run of [calculate_treatment] on a table that has both
    columns: the working copy [r1] and the returned table [r2]. *)
Lemma calculate_treatment_run (df : ref) (h : heap) (d : frame)
    (acr lag : series) :
  h !! df = Some d ->
  d !! "ACR"%string = Some acr -> d !! "Rate_Lag"%string = Some lag ->
  let r1 := fresh (dom h) in
  let d1 :=
    <["Treatment"%string := map treatment_of (series_sub acr lag)]>
      (<["ACR_diff"%string := series_sub acr lag]> d) in
  let h1 := <[r1 := d1]> h in
  let r2 := fresh (dom h1) in
  calculate_treatment df h
  = (<[r2 := delete "ACR_diff"%string
               (delete "Rate_Lag"%string (delete "ACR"%string d1))]> h1,
     Ok r2).
Proof.
  intros Hdf Hacr Hlag r1 d1 h1 r2.
  unfold calculate_treatment, op_bind.
  rewrite (copy_run df h d Hdf). fold r1.
  unfold get_column, set_column, setitem, getitem.
  rewrite !lookup_total_insert_eq, Hacr, Hlag.
  rewrite !insert_insert_eq, !lookup_total_insert_eq.
  rewrite lookup_insert_eq, !insert_insert_eq.
  unfold drop_columns. rewrite !lookup_total_insert_eq.
  fold d1. fold h1.
  assert (Hcols : forallb (has_column d1)
                    ["ACR_diff"; "Rate_Lag"; "ACR"]%string = true).
  { unfold has_column, d1. simpl.
    rewrite lookup_insert_ne, lookup_insert_eq by done.
    rewrite !lookup_insert_ne, Hlag, Hacr by done. reflexivity. }
  rewrite Hcols. reflexivity.
Qed.

Lemma gt_zero_sub (a b : option Q) :
  gt_zero (sub_cell a b) = true <->
  exists x y, a = Some x /\ b = Some y /\ y < x.
Proof.
  destruct a as [x|], b as [y|]; simpl.
  - rewrite Qltb_lt. split.
    + intros H. exists x, y. repeat split. lra.
    + intros (x' & y' & [= <-] & [= <-] & H). lra.
  - split; [discriminate | intros (x' & y' & _ & H & _); discriminate].
  - split; [discriminate | intros (x' & y' & H & _); discriminate].
  - split; [discriminate | intros (x' & y' & H & _); discriminate].
Qed.

Lemma lt_zero_sub (a b : option Q) :
  lt_zero (sub_cell a b) = true <->
  exists x y, a = Some x /\ b = Some y /\ x < y.
Proof.
  destruct a as [x|], b as [y|]; simpl.
  - rewrite Qltb_lt. split.
    + intros H. exists x, y. repeat split. lra.
    + intros (x' & y' & [= <-] & [= <-] & H). lra.
  - split; [discriminate | intros (x' & y' & _ & H & _); discriminate].
  - split; [discriminate | intros (x' & y' & H & _); discriminate].
  - split; [discriminate | intros (x' & y' & H & _); discriminate].
Qed.

(** The label of one row. *)
Lemma treatment_row (a b : option Q) :
  exists z : Z,
    treatment_of (sub_cell a b) = Some (inject_Z z) /\
    (z = 1 \/ z = -1 \/ z = 0)%Z /\
    (z = 1%Z <-> exists x y, a = Some x /\ b = Some y /\ y < x) /\
    (z = (-1)%Z <-> exists x y, a = Some x /\ b = Some y /\ x < y).
Proof.
  unfold treatment_of.
  pose proof (gt_zero_sub a b) as Hgt. pose proof (lt_zero_sub a b) as Hlt.
  destruct (gt_zero (sub_cell a b)) eqn:Eg.
  - exists 1%Z. repeat split; auto; try tauto; try discriminate.
    intros (x & y & Ha & Hb & Hxy).
    destruct (proj1 Hgt eq_refl) as (x' & y' & Ha' & Hb' & Hyx).
    exfalso. rewrite Ha in Ha'. rewrite Hb in Hb'.
    injection Ha' as <-. injection Hb' as <-. lra.
  - destruct (lt_zero (sub_cell a b)) eqn:El.
    + exists (-1)%Z. repeat split; auto; try tauto; try discriminate.
      intros H. apply Hgt in H. discriminate.
    + exists 0%Z. repeat split; auto; try discriminate.
      * intros H. apply Hgt in H. discriminate.
      * intros H. apply Hlt in H. discriminate.
Qed.

(** X1. On a table with the columns ACR and Rate_Lag,
    [calculate_treatment] returns a table whose Treatment column holds, row
    by row, 1 where ACR is above Rate_Lag, -1 where it is below, and 0
    otherwise: where the two are equal and where either is missing.  The
    label itself is never missing. *)
Theorem calculate_treatment_values (df : ref) (h : heap) (d : frame)
    (acr lag : series) :
  h !! df = Some d ->
  d !! "ACR"%string = Some acr -> d !! "Rate_Lag"%string = Some lag ->
  exists (h' : heap) (res : ref) (d' : frame) (t : series),
    calculate_treatment df h = (h', Ok res) /\
    h' !! res = Some d' /\ d' !! "Treatment"%string = Some t /\
    forall (i : nat) (a b : option Q),
      acr !! i = Some a -> lag !! i = Some b ->
      exists z : Z,
        t !! i = Some (Some (inject_Z z)) /\
        (z = 1 \/ z = -1 \/ z = 0)%Z /\
        (z = 1%Z <-> exists x y, a = Some x /\ b = Some y /\ y < x) /\
        (z = (-1)%Z <-> exists x y, a = Some x /\ b = Some y /\ x < y).
Proof.
  intros Hdf Hacr Hlag.
  pose proof (calculate_treatment_run df h d acr lag Hdf Hacr Hlag) as Hrun.
  cbv zeta in Hrun. do 4 eexists. split; [exact Hrun|].
  split; [apply lookup_insert_eq|]. split.
  - rewrite !lookup_delete_ne by done. apply lookup_insert_eq.
  - intros i a b Ha Hb.
    destruct (treatment_row a b) as (z & Hz & Hrest).
    exists z. split; [|exact Hrest].
    rewrite list_lookup_fmap. unfold series_sub.
    rewrite lookup_zip_with, Ha, Hb. simpl. rewrite Hz. reflexivity.
Qed.

(** X2. [calculate_treatment] works on a copy: every table that existed
    before the call is unchanged, the returned table is a new object
    without the columns ACR, Rate_Lag and ACR_diff, and each of its columns
    other than Treatment equals the input's. *)
Theorem calculate_treatment_frame (df : ref) (h : heap) (d : frame)
    (acr lag : series) :
  h !! df = Some d ->
  d !! "ACR"%string = Some acr -> d !! "Rate_Lag"%string = Some lag ->
  exists (h' : heap) (res : ref) (d' : frame),
    calculate_treatment df h = (h', Ok res) /\
    h !! res = None /\ h' !! res = Some d' /\
    (forall l, is_Some (h !! l) -> h' !! l = h !! l) /\
    d' !! "ACR"%string = None /\ d' !! "Rate_Lag"%string = None /\
    d' !! "ACR_diff"%string = None /\
    (forall c : string,
       c <> "ACR"%string -> c <> "Rate_Lag"%string ->
       c <> "ACR_diff"%string -> c <> "Treatment"%string ->
       d' !! c = d !! c).
Proof.
  intros Hdf Hacr Hlag.
  pose proof (calculate_treatment_run df h d acr lag Hdf Hacr Hlag) as Hrun.
  cbv zeta in Hrun. do 3 eexists. split; [exact Hrun|].
  pose proof (fresh_lookup h) as Hr1.
  match type of Hrun with
  | _ = (<[_ := _]> (<[?r1 := ?d1]> _), _) =>
      destruct (fresh_insert_lookup h r1 d1) as [Hr2h Hr2ne]
  end.
  split; [exact Hr2h|]. split; [apply lookup_insert_eq|].
  split; [|split; [|split; [|split]]].
  - intros l [fr Hl].
    rewrite !lookup_insert_ne by congruence. reflexivity.
  - rewrite !lookup_delete_ne by done. apply lookup_delete_eq.
  - rewrite lookup_delete_ne by done. apply lookup_delete_eq.
  - apply lookup_delete_eq.
  - intros c H1 H2 H3 H4.
    rewrite !lookup_delete_ne by congruence.
    rewrite !lookup_insert_ne by congruence. reflexivity.
Qed.

(** X3. [calculate_treatment] raises KeyError when the table lacks the
    column ACR or the column Rate_Lag, and leaves every existing table
    unchanged then; with both columns present it returns. *)
Theorem calculate_treatment_key_error (df : ref) (h : heap) (d : frame) :
  h !! df = Some d ->
  (d !! "ACR"%string = None \/ d !! "Rate_Lag"%string = None ->
   exists h' : heap,
     calculate_treatment df h = (h', Raise KeyError) /\
     forall l, is_Some (h !! l) -> h' !! l = h !! l) /\
  (is_Some (d !! "ACR"%string) -> is_Some (d !! "Rate_Lag"%string) ->
   exists (h' : heap) (res : ref), calculate_treatment df h = (h', Ok res)).
Proof.
  intros Hdf. split.
  - intros Habsent.
    exists (<[fresh (dom h) := d]> h). split.
    + unfold calculate_treatment, op_bind.
      rewrite (copy_run df h d Hdf).
      unfold get_column, getitem. rewrite !lookup_total_insert_eq.
      destruct (d !! "ACR"%string) as [acr|] eqn:Ea; [|reflexivity].
      destruct Habsent as [Hn|Hn]; [discriminate|]. rewrite Hn. reflexivity.
    + intros l [fr Hl]. apply lookup_insert_ne.
      pose proof (fresh_lookup h). congruence.
  - intros [acr Hacr] [lag Hlag].
    pose proof (calculate_treatment_run df h d acr lag Hdf Hacr Hlag) as Hrun.
    cbv zeta in Hrun. eauto.
Qed.

(** The run of [calculate_churn] up to the final [drop]. *)
Lemma calculate_churn_unfold (df : ref) (h : heap) (d : frame)
    (rate : series) :
  h !! df = Some d -> d !! "ChurnRate"%string = Some rate ->
  calculate_churn df h
  = drop_columns (fresh (dom h))
      ["ChurnRate"; "Members"; "Members_Lag"]%string
      (<[fresh (dom h) := <["Churn"%string := map churn_of rate]> d]> h).
Proof.
  intros Hdf Hrate. unfold calculate_churn, op_bind.
  rewrite (copy_run df h d Hdf).
  unfold get_column, set_column, setitem, getitem.
  rewrite !lookup_total_insert_eq, Hrate, insert_insert_eq. reflexivity.
Qed.

Lemma calculate_churn_run (df : ref) (h : heap) (d : frame)
    (rate members members_lag : series) :
  h !! df = Some d -> d !! "ChurnRate"%string = Some rate ->
  d !! "Members"%string = Some members ->
  d !! "Members_Lag"%string = Some members_lag ->
  let r1 := fresh (dom h) in
  let d1 := <["Churn"%string := map churn_of rate]> d in
  let h1 := <[r1 := d1]> h in
  calculate_churn df h
  = (<[fresh (dom h1) :=
         delete "ChurnRate"%string
           (delete "Members"%string (delete "Members_Lag"%string d1))]> h1,
     Ok (fresh (dom h1))).
Proof.
  intros Hdf Hrate Hm Hml r1 d1 h1.
  rewrite (calculate_churn_unfold df h d rate Hdf Hrate).
  unfold drop_columns. rewrite lookup_total_insert_eq. fold d1.
  assert (Hcols : forallb (has_column d1)
                    ["ChurnRate"; "Members"; "Members_Lag"]%string = true).
  { unfold has_column, d1. simpl.
    rewrite !lookup_insert_ne, Hrate, Hm, Hml by done. reflexivity. }
  rewrite Hcols. reflexivity.
Qed.

(** X4. On a table with the columns ChurnRate, Members and Members_Lag,
    [calculate_churn] returns a table whose Churn column holds, row by row,
    1 where ChurnRate is positive and 0 otherwise, a missing ChurnRate
    included; the three columns are gone from the returned table and every
    other column except Churn equals the input's. *)
Theorem calculate_churn_values (df : ref) (h : heap) (d : frame)
    (rate members members_lag : series) :
  h !! df = Some d -> d !! "ChurnRate"%string = Some rate ->
  d !! "Members"%string = Some members ->
  d !! "Members_Lag"%string = Some members_lag ->
  exists (h' : heap) (res : ref) (d' : frame) (churn : series),
    calculate_churn df h = (h', Ok res) /\
    h' !! res = Some d' /\ d' !! "Churn"%string = Some churn /\
    (forall (i : nat) (x : option Q), rate !! i = Some x ->
       exists z : Z,
         churn !! i = Some (Some (inject_Z z)) /\ (z = 1 \/ z = 0)%Z /\
         (z = 1%Z <-> exists v, x = Some v /\ 0 < v)) /\
    d' !! "ChurnRate"%string = None /\ d' !! "Members"%string = None /\
    d' !! "Members_Lag"%string = None /\
    (forall c : string,
       c <> "ChurnRate"%string -> c <> "Members"%string ->
       c <> "Members_Lag"%string -> c <> "Churn"%string ->
       d' !! c = d !! c).
Proof.
  intros Hdf Hrate Hm Hml.
  pose proof (calculate_churn_run df h d rate members members_lag
                Hdf Hrate Hm Hml) as Hrun.
  cbv zeta in Hrun. do 4 eexists. split; [exact Hrun|].
  split; [apply lookup_insert_eq|].
  split; [|split; [|split; [|split; [|split]]]].
  - rewrite !lookup_delete_ne by done. apply lookup_insert_eq.
  - intros i x Hx. rewrite list_lookup_fmap, Hx. unfold churn_of. simpl.
    destruct (gt_zero x) eqn:E.
    + exists 1%Z. repeat split; auto.
      intros _. destruct x as [v|]; simpl in E; [|discriminate].
      apply Qltb_lt in E. eauto.
    + exists 0%Z. repeat split; auto; try discriminate.
      intros (v & -> & Hv). simpl in E. apply Qltb_lt in Hv. congruence.
  - apply lookup_delete_eq.
  - rewrite lookup_delete_ne by done. apply lookup_delete_eq.
  - rewrite !lookup_delete_ne by done. apply lookup_delete_eq.
  - intros c H1 H2 H3 H4.
    rewrite !lookup_delete_ne by congruence.
    rewrite lookup_insert_ne by congruence. reflexivity.
Qed.

(** X5. [calculate_churn] raises KeyError when one of the columns
    ChurnRate, Members, Members_Lag is absent, returns when all three are
    present, and in either case leaves every existing table unchanged. *)
Theorem calculate_churn_key_error (df : ref) (h : heap) (d : frame) :
  h !! df = Some d ->
  (d !! "ChurnRate"%string = None \/ d !! "Members"%string = None \/
   d !! "Members_Lag"%string = None ->
   exists h' : heap,
     calculate_churn df h = (h', Raise KeyError) /\
     forall l, is_Some (h !! l) -> h' !! l = h !! l) /\
  (is_Some (d !! "ChurnRate"%string) -> is_Some (d !! "Members"%string) ->
   is_Some (d !! "Members_Lag"%string) ->
   exists (h' : heap) (res : ref),
     calculate_churn df h = (h', Ok res) /\
     forall l, is_Some (h !! l) -> h' !! l = h !! l).
Proof.
  intros Hdf.
  assert (Hkeep : forall (fr : frame) (l : ref),
            is_Some (h !! l) -> <[fresh (dom h) := fr]> h !! l = h !! l).
  { intros fr l [x Hl]. apply lookup_insert_ne.
    pose proof (fresh_lookup h). congruence. }
  split.
  - intros Habsent.
    destruct (d !! "ChurnRate"%string) as [rate|] eqn:Erate.
    + rewrite (calculate_churn_unfold df h d rate Hdf Erate).
      unfold drop_columns. rewrite lookup_total_insert_eq.
      eexists. split; [|apply Hkeep].
      assert (Hcols : forallb
                (has_column (<["Churn"%string := map churn_of rate]> d))
                ["ChurnRate"; "Members"; "Members_Lag"]%string = false).
      { unfold has_column. simpl.
        rewrite !lookup_insert_ne by done. rewrite Erate.
        destruct Habsent as [Hn|[Hn|Hn]]; [discriminate| | ]; rewrite Hn.
        - reflexivity.
        - destruct (d !! "Members"%string); reflexivity. }
      rewrite Hcols. reflexivity.
    + exists (<[fresh (dom h) := d]> h). split; [|apply Hkeep].
      unfold calculate_churn, op_bind. rewrite (copy_run df h d Hdf).
      unfold get_column, getitem. rewrite lookup_total_insert_eq, Erate.
      reflexivity.
  - intros [rate Hrate] [m Hm] [ml Hml].
    pose proof (calculate_churn_run df h d rate m ml Hdf Hrate Hm Hml)
      as Hrun.
    cbv zeta in Hrun. do 2 eexists. split; [exact Hrun|].
    intros l Hl.
    match type of Hrun with
    | _ = (<[_ := _]> (<[?r1 := ?d1]> _), _) =>
        destruct (fresh_insert_lookup h r1 d1) as [Hr2h Hr2ne]
    end.
    rewrite lookup_insert_ne by (destruct Hl; congruence).
    apply Hkeep. exact Hl.
Qed.

End LabelTransformFacts.

(** ** Label encoding: codes, classes and repeated calls *)

Section LabelEncodingCodes.

Import LabelEncoding.

Variable str_of_number : option Q -> label.
Variable str_of_missing : cell -> label.

(** What the encoder leaves in the frame and in the dictionary for a
    non-numeric column. *)
Lemma label_encode_column (df : frame) (label_encoders : encoders)
    (c : string) (cells : list cell) :
  df !! c = Some (Object cells) ->
  let y := map (str_of_cell str_of_missing) cells in
  (label_encode_non_numeric str_of_number str_of_missing df label_encoders).1
      !! c
    = Some (Numeric (transform (fit y) y)) /\
  (label_encode_non_numeric str_of_number str_of_missing df label_encoders).2
      !! c
    = Some (fit y).
Proof.
  intros Hc y. unfold label_encode_non_numeric.
  apply (foldl_encode_at str_of_number str_of_missing (non_numeric_columns df)
           (df, label_encoders) c (Object cells)).
  - apply NoDup_fst_map_to_list.
  - eapply non_numeric_columns_spec; [exact Hc | reflexivity].
  - exact Hc.
Qed.

Lemma non_numeric_columns_elem (df : frame) (c : string) :
  c ∈ non_numeric_columns df ->
  exists x, df !! c = Some x /\ is_numeric x = false.
Proof.
  unfold non_numeric_columns. intros H.
  apply list_elem_of_fmap in H as ([c' x] & -> & H).
  apply elem_of_map_to_list, map_lookup_filter_Some in H as [H1 H2].
  eauto.
Qed.

(** What the encoder leaves for every other name. *)
Lemma label_encode_other (df : frame) (label_encoders : encoders)
    (c : string) :
  (forall x, df !! c = Some x -> is_numeric x = true) ->
  (label_encode_non_numeric str_of_number str_of_missing df label_encoders).1
      !! c
    = df !! c /\
  (label_encode_non_numeric str_of_number str_of_missing df label_encoders).2
      !! c
    = label_encoders !! c.
Proof.
  intros Hnum. unfold label_encode_non_numeric.
  apply (foldl_encode_other str_of_number str_of_missing (non_numeric_columns
      df)
           (df, label_encoders) c).
  intros Hin. apply non_numeric_columns_elem in Hin as (x & Hx & Hfalse).
  rewrite (Hnum x Hx) in Hfalse. discriminate.
Qed.

(** X6. Round trip.  For every row of a non-numeric column, the code the
    encoder writes is the position, in the classes it records for that
    column, of the row's string: decoding the code through the recorded
    classes gives back [astype(str)] of the original entry.  The encoded
    column has one code per row. *)
Theorem label_encode_round_trip (df : frame) (label_encoders : encoders)
    (c : string) (cells : list cell) :
  df !! c = Some (Object cells) ->
  exists (classes : list label) (codes : list (option Q)),
    (label_encode_non_numeric str_of_number str_of_missing df label_encoders).2
        !! c
      = Some classes /\
    (label_encode_non_numeric str_of_number str_of_missing df label_encoders).1
        !! c
      = Some (Numeric codes) /\
    length codes = length cells /\
    forall (i : nat) (x : cell), cells !! i = Some x ->
      exists k : nat,
        codes !! i = Some (Some (inject_Z (Z.of_nat k))) /\
        classes !! k = Some (str_of_cell str_of_missing x).
Proof.
  intros Hc.
  destruct (label_encode_column df label_encoders c cells Hc) as [Hdf Henc].
  cbv zeta in Hdf, Henc. do 2 eexists.
  split; [exact Henc|]. split; [exact Hdf|]. split.
  - unfold transform. rewrite !length_map. reflexivity.
  - intros i x Hx.
    destruct (transform_fit_lookup (map (str_of_cell str_of_missing) cells) i
        (str_of_cell str_of_missing x))
      as (k & Hk & Hcode).
    + rewrite list_lookup_fmap, Hx. reflexivity.
    + exists k. auto.
Qed.

(** X7. Within one encoded column two rows get the same code exactly when
    [astype(str)] gives their entries the same value.  So a missing entry
    shares its code with an entry that is the text "nan" only where
    [astype(str)] writes the missing entry as that text. *)
Theorem label_encode_same_code (df : frame) (label_encoders : encoders)
    (c : string) (cells : list cell) (i j : nat) (x y : cell) :
  df !! c = Some (Object cells) ->
  cells !! i = Some x -> cells !! j = Some y ->
  exists codes : list (option Q),
    (label_encode_non_numeric str_of_number str_of_missing df label_encoders).1
        !! c
      = Some (Numeric codes) /\
    (codes !! i = codes !! j <-> str_of_cell str_of_missing x = str_of_cell
        str_of_missing y).
Proof.
  intros Hc Hx Hy.
  destruct (label_encode_column df label_encoders c cells Hc) as [Hdf _].
  cbv zeta in Hdf. eexists. split; [exact Hdf|].
  set (ys := map (str_of_cell str_of_missing) cells).
  destruct (transform_fit_lookup ys i (str_of_cell str_of_missing x)) as (k &
      Hk & Hi).
  { unfold ys. rewrite list_lookup_fmap, Hx. reflexivity. }
  destruct (transform_fit_lookup ys j (str_of_cell str_of_missing y)) as (l &
      Hl & Hj).
  { unfold ys. rewrite list_lookup_fmap, Hy. reflexivity. }
  rewrite Hi, Hj. split.
  - intros [= Hkl]. apply Nat2Z.inj in Hkl. subst l. congruence.
  - intros Hxy. unfold transform in Hi, Hj.
    rewrite list_lookup_fmap in Hi, Hj. unfold ys in Hi, Hj.
    rewrite list_lookup_fmap, Hx in Hi. rewrite list_lookup_fmap, Hy in Hj.
    simpl in Hi, Hj. rewrite Hxy in Hi. congruence.
Qed.

End LabelEncodingCodes.

(** ** Label encoding: the order of the classes *)

Section LabelEncodingOrder.

Import LabelEncoding.

Lemma ascii_compare_refl (a : Ascii.ascii) : Ascii.compare a a = Eq.
Proof. unfold Ascii.compare. apply N.compare_refl. Qed.

Lemma string_compare_refl (s : string) : String.compare s s = Eq.
Proof.
  induction s as [|a s IH]; simpl; [reflexivity|].
  rewrite ascii_compare_refl. exact IH.
Qed.

Lemma string_compare_lt_trans (a b c : string) :
  String.compare a b = Lt -> String.compare b c = Lt ->
  String.compare a c = Lt.
Proof.
  revert b c. induction a as [|x a IH]; intros [|y b] [|z c]; simpl;
    try discriminate; try reflexivity.
  destruct (Ascii.compare x y) eqn:Exy; try discriminate;
    destruct (Ascii.compare y z) eqn:Eyz; try discriminate; intros Hab Hbc.
  - apply Ascii.compare_eq_iff in Exy, Eyz. subst.
    rewrite ascii_compare_refl. eapply IH; eassumption.
  - apply Ascii.compare_eq_iff in Exy. subst. rewrite Eyz. reflexivity.
  - apply Ascii.compare_eq_iff in Eyz. subst. rewrite Exy. reflexivity.
  - assert (Hxz : Ascii.compare x z = Lt).
    { unfold Ascii.compare in *. eapply N.lt_trans; eassumption. }
    rewrite Hxz. reflexivity.
Qed.

Lemma leb_string_cases (a b : string) :
  leb_string a b = true <-> String.compare a b = Lt \/ a = b.
Proof.
  unfold leb_string. destruct (String.compare a b) eqn:E.
  - apply String.compare_eq_iff in E. tauto.
  - tauto.
  - split; [discriminate|]. intros [H| ->]; [discriminate|].
    rewrite string_compare_refl in E. discriminate.
Qed.

Lemma leb_string_total (a b : string) :
  leb_string a b = false -> leb_string b a = true.
Proof.
  unfold leb_string. rewrite (String.compare_antisym b a).
  destruct (String.compare a b); simpl; congruence.
Qed.

Lemma label_lt_irrefl (a : label) : ~ label_lt a a.
Proof.
  destruct a as [s|]; simpl; [|tauto].
  rewrite string_compare_refl. discriminate.
Qed.

Lemma label_lt_trans (a b c : label) :
  label_lt a b -> label_lt b c -> label_lt a c.
Proof.
  destruct a as [s|], b as [t|], c as [u|]; simpl; try tauto.
  apply string_compare_lt_trans.
Qed.

Lemma leb_label_cases (a b : label) :
  leb_label a b = true <-> label_lt a b \/ a = b.
Proof.
  destruct a as [s|], b as [t|]; simpl.
  - rewrite leb_string_cases. split; intros [H|H]; auto; [subst|]; auto.
    injection H as ->. auto.
  - tauto.
  - split; [discriminate | intros [[]|H]; discriminate].
  - tauto.
Qed.

Lemma leb_label_total (a b : label) :
  leb_label a b = false -> leb_label b a = true.
Proof.
  destruct a as [s|], b as [t|]; simpl; try congruence.
  apply leb_string_total.
Qed.

Lemma leb_label_trans (a b c : label) :
  leb_label a b = true -> leb_label b c = true -> leb_label a c = true.
Proof.
  rewrite !leb_label_cases. intros [Hab| ->] [Hbc| ->]; auto.
  left. eapply label_lt_trans; eassumption.
Qed.

(** The insertion sort sorts. *)
Lemma insert_by_sorted (x : label) (l : list label) :
  StronglySorted (fun a b => leb_label a b = true) l ->
  StronglySorted (fun a b => leb_label a b = true)
    (insert_by leb_label x l).
Proof.
  induction 1 as [|y r Hr IH Hy]; simpl.
  - repeat constructor.
  - destruct (leb_label x y) eqn:E.
    + constructor; [constructor; assumption|].
      constructor; [exact E|].
      eapply Forall_impl; [exact Hy|]. simpl. intros z Hz.
      eapply leb_label_trans; eassumption.
    + constructor; [exact IH|].
      apply list.Forall_forall. intros z Hz.
      apply list_elem_of_In, In_insert_by in Hz as [->|Hz].
      * apply leb_label_total. exact E.
      * rewrite list.Forall_forall in Hy. apply Hy, list_elem_of_In, Hz.
Qed.

Lemma sort_by_sorted (l : list label) :
  StronglySorted (fun a b => leb_label a b = true) (sort_by leb_label l).
Proof.
  unfold sort_by. induction l as [|a l IH]; simpl.
  - constructor.
  - apply insert_by_sorted. exact IH.
Qed.

Lemma dedup_sorted_In (x : label) (l : list label) :
  In x (dedup_sorted l) -> In x l.
Proof.
  induction l as [|a r IH]; [tauto|].
  destruct r as [|b r']; [tauto|].
  cbn [dedup_sorted]. destruct (label_eqb a b).
  - intros H. right. apply IH. exact H.
  - intros [->|H]; [left; reflexivity | right; apply IH; exact H].
Qed.

Lemma dedup_sorted_cons (a b : label) (r : list label) :
  dedup_sorted (a :: b :: r)
  = if label_eqb a b then dedup_sorted (b :: r)
    else a :: dedup_sorted (b :: r).
Proof. reflexivity. Qed.

(** Dropping the repeated neighbours of a sorted list leaves a strictly
    increasing list. *)
Lemma dedup_sorted_strict (l : list label) :
  StronglySorted (fun a b => leb_label a b = true) l ->
  StronglySorted label_lt (dedup_sorted l).
Proof.
  induction 1 as [|a r Hr IH Ha]; [constructor|].
  destruct r as [|b r']; [repeat constructor|].
  rewrite dedup_sorted_cons. destruct (label_eqb a b) eqn:E; [exact IH|].
  constructor; [exact IH|].
  apply label_eqb_neq in E.
  rewrite list.Forall_forall in Ha.
  assert (Hab : label_lt a b).
  { assert (Hle : leb_label a b = true) by (apply Ha; left).
    apply leb_label_cases in Hle as [H|H]; [exact H | contradiction]. }
  apply list.Forall_forall. intros z Hz.
  apply list_elem_of_In, dedup_sorted_In in Hz as [<-|Hz]; [exact Hab|].
  inversion Hr as [|? ? _ Hb]; subst.
  rewrite list.Forall_forall in Hb.
  assert (Hbz : leb_label b z = true) by (apply Hb, list_elem_of_In, Hz).
  apply leb_label_cases in Hbz as [Hbz| <-]; [|exact Hab].
  eapply label_lt_trans; eassumption.
Qed.

Lemma strictly_sorted_lt (l : list label) (i j : nat) (a b : label) :
  StronglySorted label_lt l -> (i < j)%nat ->
  l !! i = Some a -> l !! j = Some b -> label_lt a b.
Proof.
  intros Hl. revert i j.
  induction Hl as [|c r Hr IH Hc]; intros i j Hij Ha Hb.
  - rewrite lookup_nil in Ha. discriminate.
  - destruct j as [|j]; [lia|]. simpl in Hb.
    destruct i as [|i]; simpl in Ha.
    + injection Ha as <-. rewrite list.Forall_forall in Hc.
      apply Hc. apply list_elem_of_lookup. eauto.
    + apply (IH i j); [lia | assumption | assumption].
Qed.

Lemma strictly_sorted_lookup (l : list label) (k m : nat) (s t : label) :
  StronglySorted label_lt l ->
  l !! k = Some s -> l !! m = Some t ->
  ((k < m)%nat <-> label_lt s t).
Proof.
  intros Hl Hs Ht.
  split; [intros Hkm; eapply strictly_sorted_lt; eassumption|].
  intros Hst. destruct (lt_eq_lt_dec k m) as [[H|H]|H]; [exact H| | ].
  - subst m. rewrite Hs in Ht. injection Ht as <-.
    exfalso. eapply label_lt_irrefl. exact Hst.
  - pose proof (strictly_sorted_lt l m k t s Hl H Ht Hs) as Hts.
    exfalso. eapply label_lt_irrefl. eapply label_lt_trans; eassumption.
Qed.

(** The missing value, when it is a class, is the last class. *)
Lemma strictly_sorted_missing_last (l : list label) (k : nat) :
  StronglySorted label_lt l -> l !! k = Some LNaN -> S k = length l.
Proof.
  intros Hl Hk.
  pose proof (lookup_lt_Some _ _ _ Hk) as Hlt.
  destruct (decide (S k = length l)) as [E|E]; [exact E|].
  destruct (l !! S k) as [t|] eqn:Ht.
  - pose proof (strictly_sorted_lt l k (S k) LNaN t Hl ltac:(lia) Hk Ht)
      as H.
    destruct H.
  - apply lookup_ge_None in Ht. lia.
Qed.

Lemma fit_strictly_sorted (y : list label) :
  StronglySorted label_lt (fit y).
Proof. apply dedup_sorted_strict, sort_by_sorted. Qed.

Lemma fit_In (y : list label) (s : label) : In s (fit y) <-> In s y.
Proof.
  split; [|apply In_sk_unique].
  intros H. apply dedup_sorted_In in H. apply In_sort_by in H. exact H.
Qed.

End LabelEncodingOrder.

(** ** Label encoding: classes, order of the codes, repeated calls *)

Section LabelEncodingCalls.

Import LabelEncoding.

Variable str_of_number : option Q -> label.
Variable str_of_missing : cell -> label.

(** X8. The classes recorded for a non-numeric column are exactly the
    values [astype(str)] gives its entries, each once, in strictly
    increasing order: the strings in lexicographic order, and after them
    the missing value where [astype(str)] keeps an entry missing. *)
Theorem label_encode_classes (df : frame) (label_encoders : encoders)
    (c : string) (cells : list cell) :
  df !! c = Some (Object cells) ->
  exists classes : list label,
    (label_encode_non_numeric str_of_number str_of_missing df
       label_encoders).2 !! c = Some classes /\
    (forall s : label,
       s ∈ classes <->
       exists x, x ∈ cells /\ str_of_cell str_of_missing x = s) /\
    (forall (k m : nat) (s t : label),
       classes !! k = Some s -> classes !! m = Some t ->
       ((k < m)%nat <-> label_lt s t)).
Proof.
  intros Hc.
  destruct (label_encode_column str_of_number str_of_missing df
              label_encoders c cells Hc) as [_ Henc].
  cbv zeta in Henc. eexists. split; [exact Henc|]. split.
  - intros s. rewrite list_elem_of_In, fit_In, <- list_elem_of_In.
    rewrite list_elem_of_fmap. split.
    + intros (x & -> & Hx). eauto.
    + intros (x & Hx & <-). eauto.
  - intros k m s t. apply strictly_sorted_lookup. apply fit_strictly_sorted.
Qed.

(** X9. The codes of an encoded column follow the order of the classes:
    of two rows, the one whose entry comes first (the smaller string; any
    string before an entry kept missing) has the smaller code. *)
Theorem label_encode_codes_ordered (df : frame) (label_encoders : encoders)
    (c : string) (cells : list cell) (i j : nat) (x y : cell) :
  df !! c = Some (Object cells) ->
  cells !! i = Some x -> cells !! j = Some y ->
  exists (codes : list (option Q)) (ki kj : nat),
    (label_encode_non_numeric str_of_number str_of_missing df
       label_encoders).1 !! c = Some (Numeric codes) /\
    codes !! i = Some (Some (inject_Z (Z.of_nat ki))) /\
    codes !! j = Some (Some (inject_Z (Z.of_nat kj))) /\
    ((ki < kj)%nat <->
     label_lt (str_of_cell str_of_missing x) (str_of_cell str_of_missing y)).
Proof.
  intros Hc Hx Hy.
  destruct (label_encode_column str_of_number str_of_missing df
              label_encoders c cells Hc) as [Hdf _].
  cbv zeta in Hdf.
  set (ys := map (str_of_cell str_of_missing) cells) in *.
  destruct (transform_fit_lookup ys i (str_of_cell str_of_missing x))
    as (ki & Hki & Hi).
  { unfold ys. rewrite list_lookup_fmap, Hx. reflexivity. }
  destruct (transform_fit_lookup ys j (str_of_cell str_of_missing y))
    as (kj & Hkj & Hj).
  { unfold ys. rewrite list_lookup_fmap, Hy. reflexivity. }
  exists (transform (fit ys) ys), ki, kj.
  split; [exact Hdf|]. split; [exact Hi|]. split; [exact Hj|].
  eapply strictly_sorted_lookup; [apply fit_strictly_sorted | | ];
    eassumption.
Qed.

Lemma label_encode_all_numeric (df : frame) (label_encoders : encoders)
    (c : string) (x : column) :
  (label_encode_non_numeric str_of_number str_of_missing df label_encoders).1
      !! c = Some x ->
  is_numeric x = true.
Proof.
  intros Hx. destruct (df !! c) as [[xs|cells]|] eqn:Hc.
  - destruct (label_encode_other str_of_number str_of_missing df label_encoders
      c)
      as [Hsame _].
    { intros x' Hx'. rewrite Hc in Hx'. injection Hx' as <-. reflexivity. }
    rewrite Hsame, Hc in Hx. injection Hx as <-. reflexivity.
  - destruct (label_encode_column str_of_number str_of_missing df
      label_encoders c cells Hc)
      as [Hdf _].
    cbv zeta in Hdf. rewrite Hdf in Hx. injection Hx as <-. reflexivity.
  - destruct (label_encode_other str_of_number str_of_missing df label_encoders
      c)
      as [Hsame _].
    { intros x' Hx'. rewrite Hc in Hx'. discriminate. }
    rewrite Hsame, Hc in Hx. discriminate.
Qed.

Lemma non_numeric_columns_nil (df : frame) :
  (forall c x, df !! c = Some x -> is_numeric x = true) ->
  non_numeric_columns df = [].
Proof.
  intros Hall. destruct (non_numeric_columns df) as [|c cols] eqn:E;
    [reflexivity|].
  assert (Hin : c ∈ non_numeric_columns df) by (rewrite E; left).
  apply non_numeric_columns_elem in Hin as (x & Hx & Hfalse).
  rewrite (Hall c x Hx) in Hfalse. discriminate.
Qed.

(** X10. The encoder only touches non-numeric columns: a numeric column,
    and the encoder recorded earlier under its name, stay as they are; no
    column is added; and afterwards every column of the table is
    numeric. *)
Theorem label_encode_frame (df : frame) (label_encoders : encoders) :
  (forall c xs, df !! c = Some (Numeric xs) ->
     (label_encode_non_numeric str_of_number str_of_missing df
         label_encoders).1 !! c
       = Some (Numeric xs) /\
     (label_encode_non_numeric str_of_number str_of_missing df
         label_encoders).2 !! c
       = label_encoders !! c) /\
  (forall c, df !! c = None ->
     (label_encode_non_numeric str_of_number str_of_missing df
         label_encoders).1 !! c = None
     /\
     (label_encode_non_numeric str_of_number str_of_missing df
         label_encoders).2 !! c
       = label_encoders !! c) /\
  (forall c x,
     (label_encode_non_numeric str_of_number str_of_missing df
         label_encoders).1 !! c
       = Some x -> is_numeric x = true).
Proof.
  split; [|split].
  - intros c xs Hc.
    destruct (label_encode_other str_of_number str_of_missing df label_encoders
        c)
      as [H1 H2].
    { intros x Hx. rewrite Hc in Hx. injection Hx as <-. reflexivity. }
    rewrite H1, H2. auto.
  - intros c Hc.
    destruct (label_encode_other str_of_number str_of_missing df label_encoders
        c)
      as [H1 H2].
    { intros x Hx. rewrite Hc in Hx. discriminate. }
    rewrite H1, H2. auto.
  - apply label_encode_all_numeric.
Qed.

(** X11. Encoding is idempotent: running the encoder again on its own
    output changes neither the table nor the recorded encoders. *)
Theorem label_encode_idempotent (df : frame) (label_encoders : encoders) :
  label_encode_non_numeric str_of_number str_of_missing
    (label_encode_non_numeric str_of_number str_of_missing df label_encoders).1
    (label_encode_non_numeric str_of_number str_of_missing df label_encoders).2
  = label_encode_non_numeric str_of_number str_of_missing df label_encoders.
Proof.
  unfold label_encode_non_numeric at 1.
  rewrite non_numeric_columns_nil.
  - simpl. destruct (label_encode_non_numeric _ _ _). reflexivity.
  - apply label_encode_all_numeric.
Qed.

(** X12. The dictionary of encoders accumulates over calls: after encoding
    a first and then a second table, [get_label_encoders] holds for each
    name the classes fitted on the second table where the column is
    non-numeric there, otherwise the classes fitted on the first table
    where the column is non-numeric there, otherwise what it held before. *)
Theorem label_encoders_accumulate (df1 df2 : frame)
    (label_encoders : encoders) (c : string) :
  (forall cells, df2 !! c = Some (Object cells) ->
     get_label_encoders
       (label_encode_non_numeric str_of_number str_of_missing df2
          (label_encode_non_numeric str_of_number str_of_missing df1
              label_encoders).2).2
       !! c
     = Some (fit (map (str_of_cell str_of_missing) cells)))
  /\
  ((forall x, df2 !! c = Some x -> is_numeric x = true) ->
   forall cells, df1 !! c = Some (Object cells) ->
     get_label_encoders
       (label_encode_non_numeric str_of_number str_of_missing df2
          (label_encode_non_numeric str_of_number str_of_missing df1
              label_encoders).2).2
       !! c
     = Some (fit (map (str_of_cell str_of_missing) cells)))
  /\
  ((forall x, df2 !! c = Some x -> is_numeric x = true) ->
   (forall x, df1 !! c = Some x -> is_numeric x = true) ->
   get_label_encoders
     (label_encode_non_numeric str_of_number str_of_missing df2
        (label_encode_non_numeric str_of_number str_of_missing df1
            label_encoders).2).2
     !! c
   = label_encoders !! c).
Proof.
  set (first := label_encode_non_numeric str_of_number str_of_missing df1
      label_encoders).
  set (second := label_encode_non_numeric str_of_number str_of_missing df2
      first.2).
  unfold get_label_encoders. split; [|split].
  - intros cells Hc.
    destruct (label_encode_column str_of_number str_of_missing df2 first.2 c
        cells Hc)
      as [_ H].
    exact H.
  - intros Hnum2 cells Hc.
    destruct (label_encode_other str_of_number str_of_missing df2 first.2 c
        Hnum2)
      as [_ H2].
    destruct (label_encode_column str_of_number str_of_missing df1
        label_encoders c cells Hc)
      as [_ H1].
    unfold second. rewrite H2. exact H1.
  - intros Hnum2 Hnum1.
    destruct (label_encode_other str_of_number str_of_missing df2 first.2 c
        Hnum2)
      as [_ H2].
    destruct (label_encode_other str_of_number str_of_missing df1
        label_encoders c Hnum1)
      as [_ H1].
    unfold second. rewrite H2. exact H1.
Qed.

(** C10 (as amended). A missing entry of a non-numeric column is not
    preserved as a missing-marker: it gets a regular numeric code, the
    position of its class among the fitted classes.  That class is what
    [astype(str)] makes of the entry: a category string where
    [astype(str)] writes one (the text "nan" for NaN under pandas 2), and
    the missing value itself, fitted as the last class, where
    [astype(str)] keeps the entry missing (pandas 3). *)
Theorem label_encode_missing_is_category (df : frame)
    (label_encoders : encoders) (c : string) (cells : list cell)
    (i : nat) (x : cell) :
  df !! c = Some (Object cells) -> cells !! i = Some x -> is_missing x ->
  exists (classes : list label) (codes : list (option Q)) (k : nat),
    (label_encode_non_numeric str_of_number str_of_missing df
       label_encoders).2 !! c = Some classes /\
    (label_encode_non_numeric str_of_number str_of_missing df
       label_encoders).1 !! c = Some (Numeric codes) /\
    codes !! i = Some (Some (inject_Z (Z.of_nat k))) /\
    classes !! k = Some (str_of_missing x) /\
    (str_of_missing x = LNaN -> S k = length classes).
Proof.
  intros Hc Hi Hmiss.
  destruct (label_encode_column str_of_number str_of_missing df
              label_encoders c cells Hc) as [Hdf Henc].
  cbv zeta in Hdf, Henc.
  set (y := map (str_of_cell str_of_missing) cells) in *.
  assert (Hy : y !! i = Some (str_of_missing x)).
  { unfold y. rewrite list_lookup_fmap, Hi.
    destruct Hmiss as [-> | ->]; reflexivity. }
  destruct (transform_fit_lookup y i _ Hy) as (k & Hk & Hcode).
  exists (fit y), (transform (fit y) y), k.
  split; [exact Henc|]. split; [exact Hdf|]. split; [exact Hcode|].
  split; [exact Hk|].
  intros Hnan. rewrite Hnan in Hk.
  apply strictly_sorted_missing_last; [apply fit_strictly_sorted | exact Hk].
Qed.

End LabelEncodingCalls.

(** ** The discretizer: intervals, order and bounds of the buckets *)

Section DiscretizerBuckets.

Import Discretizer.
Local Open Scope Q_scope.

Variable ar : arith.
Variable quantile_edge : list Q -> Z -> nat -> Q.
Variable kmeans_centers : list Q -> Z -> list Q.

Lemma searchsorted_left_mono (bins : list Q) (x y : Q) :
  x <= y -> (searchsorted_left bins x <= searchsorted_left bins y)%Z.
Proof.
  intros Hxy. induction bins as [|b r IH]; simpl; [lia|].
  destruct (Qltb b x) eqn:Ex.
  - apply Qltb_lt in Ex.
    replace (Qltb b y) with true by (symmetry; apply Qltb_lt; lra). lia.
  - pose proof (searchsorted_left_nonneg r y).
    destruct (Qltb b y); lia.
Qed.

Lemma searchsorted_right_nonneg (bins : list Q) (x : Q) :
  (0 <= searchsorted_right bins x)%Z.
Proof.
  induction bins as [|b r IH]; simpl; [lia|]. destruct (Qle_bool b x); lia.
Qed.

Lemma searchsorted_right_mono (bins : list Q) (x y : Q) :
  x <= y -> (searchsorted_right bins x <= searchsorted_right bins y)%Z.
Proof.
  intros Hxy. induction bins as [|b r IH]; simpl; [lia|].
  destruct (Qle_bool b x) eqn:Ex.
  - apply Qle_bool_iff in Ex.
    replace (Qle_bool b y) with true by (symmetry; apply Qle_bool_iff; lra).
    lia.
  - pose proof (searchsorted_right_nonneg r y).
    destruct (Qle_bool b y); lia.
Qed.

Lemma searchsorted_left_le_len (bins : list Q) (x : Q) :
  (searchsorted_left bins x <= len bins)%Z.
Proof.
  unfold len. induction bins as [|b r IH]; simpl length; simpl; [lia|].
  destruct (Qltb b x); lia.
Qed.

(** The rank splits the edges: those before it are below [x], the one at
    it is not. *)
Lemma searchsorted_left_prefix (bins : list Q) (x : Q) (i : nat) (b : Q) :
  (Z.of_nat i < searchsorted_left bins x)%Z -> bins !! i = Some b -> b < x.
Proof.
  revert i. induction bins as [|c r IH]; simpl; intros i Hi Hb.
  - rewrite lookup_nil in Hb. discriminate.
  - destruct (Qltb c x) eqn:E; [|lia].
    destruct i as [|i]; simpl in Hb.
    + injection Hb as <-. apply Qltb_lt. exact E.
    + apply (IH i); [lia | exact Hb].
Qed.

Lemma searchsorted_left_stop (bins : list Q) (x : Q) (i : nat) (b : Q) :
  searchsorted_left bins x = Z.of_nat i -> bins !! i = Some b -> x <= b.
Proof.
  revert i. induction bins as [|c r IH]; simpl; intros i Hi Hb.
  - rewrite lookup_nil in Hb. discriminate.
  - destruct (Qltb c x) eqn:E.
    + destruct i as [|i]; simpl in Hb.
      * pose proof (searchsorted_left_nonneg r x). lia.
      * apply (IH i); [lia | exact Hb].
    + assert (i = O) by lia. subst i. simpl in Hb. injection Hb as <-.
      apply Qltb_ge. exact E.
Qed.

(** On strictly increasing edges, bucket [k] is the right-closed interval
    between edge [k] and edge [k + 1]. *)
Lemma cut_row_interval (bins : list Q) (x : Q) (k : nat) :
  strictly_increasing bins ->
  (cut_row bins false (Some x) = Some (Z.of_nat k) <->
   exists lo hi, bins !! k = Some lo /\ bins !! S k = Some hi /\
                 lo < x /\ x <= hi).
Proof.
  intros Hinc. unfold cut_row. cbn [andb].
  pose proof (searchsorted_left_nonneg bins x) as Hnn.
  pose proof (searchsorted_left_le_len bins x) as Hle.
  split.
  - destruct ((searchsorted_left bins x =? len bins)%Z
              || (searchsorted_left bins x =? 0)%Z) eqn:E; [discriminate|].
    apply orb_false_iff in E as [E1 E2].
    apply Z.eqb_neq in E1, E2. intros [= Hk].
    assert (Hrank : searchsorted_left bins x = Z.of_nat (S k)) by lia.
    unfold len in *.
    destruct (lookup_lt_is_Some_2 bins k) as [lo Hlo]; [lia|].
    destruct (lookup_lt_is_Some_2 bins (S k)) as [hi Hhi]; [lia|].
    exists lo, hi. repeat split; try assumption.
    + apply (searchsorted_left_prefix bins x k lo); [lia | exact Hlo].
    + apply (searchsorted_left_stop bins x (S k) hi); assumption.
  - intros (lo & hi & Hlo & Hhi & Hlox & Hxhi).
    assert (Hrank : searchsorted_left bins x = Z.of_nat (S k)).
    { apply searchsorted_left_rank.
      - apply lookup_lt_Some in Hhi. exact Hhi.
      - intros i b Hi Hb.
        destruct (decide (i = k)) as [->|Hne].
        + rewrite Hlo in Hb. injection Hb as <-. exact Hlox.
        + assert (b < lo) by (apply (Hinc i k); [lia | assumption..]). lra.
      - intros b Hb. rewrite Hhi in Hb. injection Hb as <-. exact Hxhi. }
    rewrite Hrank. apply lookup_lt_Some in Hhi. unfold len.
    replace (Z.of_nat (S k) =? Z.of_nat (length bins))%Z with false
      by (symmetry; apply Z.eqb_neq; lia).
    replace (Z.of_nat (S k) =? 0)%Z with false
      by (symmetry; apply Z.eqb_neq; lia).
    f_equal. lia.
Qed.

Lemma searchsorted_left_all (bins : list Q) (x : Q) :
  (forall i b, bins !! i = Some b -> b < x) ->
  searchsorted_left bins x = len bins.
Proof.
  unfold len. induction bins as [|c r IH]; intros Hall; [reflexivity|].
  simpl searchsorted_left.
  replace (Qltb c x) with true
    by (symmetry; apply Qltb_lt; apply (Hall O); reflexivity).
  rewrite IH by (intros i b Hb; apply (Hall (S i)); exact Hb).
  simpl length. lia.
Qed.

(** On strictly increasing edges, a value gets no bucket exactly when it is
    at or below the first edge or above the last one. *)
Lemma cut_row_masked (bins : list Q) (x : Q) :
  bins <> [] -> strictly_increasing bins ->
  (cut_row bins false (Some x) = None <->
   (exists lo, bins !! O = Some lo /\ x <= lo) \/
   (exists hi, last bins = Some hi /\ hi < x)).
Proof.
  intros Hne Hinc. unfold cut_row. cbn [andb].
  pose proof (searchsorted_left_nonneg bins x) as Hnn.
  assert (Hlen : (0 < length bins)%nat).
  { destruct bins; [contradiction | simpl; lia]. }
  destruct (lookup_lt_is_Some_2 bins O) as [lo Hlo]; [lia|].
  destruct (lookup_lt_is_Some_2 bins (pred (length bins))) as [hi Hhi];
    [lia|].
  rewrite last_lookup. split.
  - destruct ((searchsorted_left bins x =? len bins)%Z
              || (searchsorted_left bins x =? 0)%Z) eqn:E; [|discriminate].
    intros _. apply orb_true_iff in E as [E|E]; apply Z.eqb_eq in E.
    + right. exists hi. split; [exact Hhi|].
      apply (searchsorted_left_prefix bins x (pred (length bins)) hi);
        [unfold len in E; lia | exact Hhi].
    + left. exists lo. split; [exact Hlo|].
      apply (searchsorted_left_stop bins x O lo); assumption.
  - intros [(lo' & Hlo' & Hx)|(hi' & Hhi' & Hx)].
    + rewrite (searchsorted_left_rank bins x O); [|lia|intros; lia|].
      * rewrite orb_true_r. reflexivity.
      * intros b Hb. rewrite Hlo' in Hb. injection Hb as <-. exact Hx.
    + rewrite searchsorted_left_all.
      * rewrite Z.eqb_refl. reflexivity.
      * intros i b Hb. rewrite Hhi in Hhi'. injection Hhi' as <-.
        destruct (decide (i = pred (length bins))) as [->|Hi].
        -- rewrite Hhi in Hb. injection Hb as <-. exact Hx.
        -- pose proof (lookup_lt_Some _ _ _ Hb).
           assert (b < hi) by (apply (Hinc i (pred (length bins)));
                               [lia | assumption..]).
           lra.
Qed.

(** X13. With the custom strategy and non-empty strictly increasing
    edges, a row gets bucket [k] exactly when its value lies in the
    right-closed interval (edge k, edge k+1]; it gets the missing-marker
    exactly when its value is at or below the first edge or above the
    last. *)
Theorem custom_right_closed_intervals (data : frame) (feature : string)
    (col : series) (n_bins : Z) (bins : list Q) :
  data !! feature = Some col -> bins <> [] -> strictly_increasing bins ->
  exists b : buckets,
    discretize_feature ar quantile_edge kmeans_centers data feature "custom"
        n_bins (Some bins) = Ok b /\
    forall (i : nat) (x : Q), col !! i = Some (Some x) ->
      (forall k : nat,
         b !! i = Some (Some (Z.of_nat k)) <->
         exists lo hi, bins !! k = Some lo /\ bins !! S k = Some hi /\
                       lo < x /\ x <= hi) /\
      (b !! i = Some None <->
       (exists lo, bins !! O = Some lo /\ x <= lo) \/
       (exists hi, last bins = Some hi /\ hi < x)).
Proof.
  intros Hcol Hne Hinc. eexists. split.
  - rewrite (custom_unfold ar quantile_edge kmeans_centers data feature col)
      by assumption.
    unfold cut_bins.
    rewrite monotonic_strictly_increasing by assumption.
    apply bins_to_cuts_strictly_increasing. assumption.
  - intros i x Hi. rewrite list_lookup_fmap, Hi.
    cbn [fmap option_fmap option_map]. split.
    + intros k. rewrite <- (cut_row_interval bins x k Hinc).
      split; [intros [= H]; exact H | intros ->; reflexivity].
    + rewrite <- (cut_row_masked bins x Hne Hinc).
      split; [intros [= H]; exact H | intros ->; reflexivity].
Qed.

(** *** Order *)

Lemma cut_row_mono (bins : list Q) (il : bool) (x y : Q) (kx ky : Z) :
  cut_row bins il (Some x) = Some kx -> cut_row bins il (Some y) = Some ky ->
  x <= y -> (kx <= ky)%Z.
Proof.
  unfold cut_row. intros Hx Hy Hxy.
  pose proof (searchsorted_left_mono bins x y Hxy) as Hmono.
  pose proof (searchsorted_left_nonneg bins y) as Hnny.
  destruct (il && Qeq_bool x (nth 0 bins 0)) eqn:Ex;
    destruct (il && Qeq_bool y (nth 0 bins 0)) eqn:Ey.
  - destruct ((1 =? len bins)%Z || (1 =? 0)%Z); [discriminate|].
    injection Hx as <-. injection Hy as <-. lia.
  - destruct ((1 =? len bins)%Z || (1 =? 0)%Z); [discriminate|].
    destruct ((searchsorted_left bins y =? len bins)%Z
              || (searchsorted_left bins y =? 0)%Z) eqn:E; [discriminate|].
    apply orb_false_iff in E as [_ E]. apply Z.eqb_neq in E.
    injection Hx as <-. injection Hy as <-. lia.
  - exfalso.
    apply andb_true_iff in Ey as [Hil Ey]. apply Qeq_bool_iff in Ey.
    rewrite Hil in Ex. simpl in Ex. apply Qeq_bool_false in Ex.
    destruct ((searchsorted_left bins x =? len bins)%Z
              || (searchsorted_left bins x =? 0)%Z) eqn:E; [discriminate|].
    apply orb_false_iff in E as [_ E]. apply Z.eqb_neq in E.
    destruct bins as [|b0 r]; [simpl in E; lia|].
    simpl in Ey, Ex, E. destruct (Qltb b0 x) eqn:Eb; [|lia].
    apply Qltb_lt in Eb. lra.
  - destruct ((searchsorted_left bins x =? len bins)%Z
              || (searchsorted_left bins x =? 0)%Z); [discriminate|].
    destruct ((searchsorted_left bins y =? len bins)%Z
              || (searchsorted_left bins y =? 0)%Z); [discriminate|].
    injection Hx as <-. injection Hy as <-. lia.
Qed.

Lemma map_cut_row_mono (bins : list Q) (il : bool) (col : series)
    (i j : nat) (x y : Q) (kx ky : Z) :
  col !! i = Some (Some x) -> col !! j = Some (Some y) ->
  map (cut_row bins il) col !! i = Some (Some kx) ->
  map (cut_row bins il) col !! j = Some (Some ky) ->
  x <= y -> (kx <= ky)%Z.
Proof.
  intros Hi Hj Hbi Hbj. rewrite list_lookup_fmap, Hi in Hbi.
  rewrite list_lookup_fmap, Hj in Hbj. simpl in Hbi, Hbj.
  injection Hbi as Hbi. injection Hbj as Hbj.
  eapply cut_row_mono; eassumption.
Qed.

Lemma kbins_inv (x : series) (n : Z) (b : buckets) :
  kbins_fit_transform ar kmeans_centers x n = Ok b ->
  (2 <= n)%Z /\ existsb isna x = false /\
  (b = map (fun _ => Some 0%Z) x \/
   exists inner : list Q,
     (len inner <= len (midpoints ar (sort_by Qle_bool
                                        (kmeans_centers (dropna x) n))))%Z /\
     b = map (fun v => Some (searchsorted_right inner v)) (dropna x)).
Proof.
  unfold kbins_fit_transform.
  destruct (n <? 2)%Z eqn:En; [discriminate|]. apply Z.ltb_ge in En.
  destruct (Z.of_nat (length x) =? 0)%Z; [discriminate|].
  destruct (existsb isna x) eqn:Ena; [discriminate|].
  destruct (nanmin (dropna x)) as [col_min|]; [|discriminate].
  destruct (nanmax (dropna x)) as [col_max|]; [|discriminate].
  destruct (Qeq_bool col_min col_max); [intros [= <-]; auto|].
  destruct (Z.of_nat (length x) <? n)%Z; [discriminate|]. intros [= <-].
  - split; [assumption|]. split; [reflexivity|]. right.
    eexists. split; [|reflexivity].
    set (mids := midpoints ar _). unfold remove_small_bins, len. simpl tl.
    assert (Hwide : forall prev l,
              (length (wide_after ar prev l) <= length l)%nat).
    { intros prev l. revert prev.
      induction l as [|e r IH]; simpl; intros prev; [lia|].
      destruct (Qltb _ _); simpl; specialize (IH e); lia. }
    specialize (Hwide col_min (mids ++ [col_max])).
    rewrite length_app in Hwide. simpl in Hwide.
    destruct (wide_after ar col_min (mids ++ [col_max])) as [|e r] eqn:Ew;
      [simpl; lia|].
    assert (Hrl : (length (removelast (e :: r)) = length r)%nat).
    { clear. revert e. induction r as [|e' r IH]; intros e; [reflexivity|].
      change (removelast (e :: e' :: r)) with (e :: removelast (e' :: r)).
      cbn [length]. rewrite IH. reflexivity. }
    rewrite Hrl. simpl in Hwide. lia.
Qed.

(** X14. Bucket ids are monotone in the value, for every strategy: of two
    rows of a result that both hold a bucket id, the row with the smaller
    value does not hold the larger id. *)
Theorem discretize_feature_monotone (data : frame) (feature : string)
    (col : series) (method : string) (n_bins : Z)
    (custom_bins : option (list Q)) (b : buckets) :
  data !! feature = Some col ->
  discretize_feature ar quantile_edge kmeans_centers data feature method n_bins
      custom_bins
  = Ok b ->
  forall (i j : nat) (x y : Q) (kx ky : Z),
    col !! i = Some (Some x) -> col !! j = Some (Some y) ->
    b !! i = Some (Some kx) -> b !! j = Some (Some ky) ->
    x <= y -> (kx <= ky)%Z.
Proof.
  intros Hcol. unfold discretize_feature, getitem. rewrite Hcol.
  cbn [mbind result_bind rbind].
  assert (Hnone : forall i k,
            map (fun _ : option Q => @None Z) col !! i <> Some (Some k)).
  { intros i k H. rewrite list_lookup_fmap in H.
    destruct (col !! i); discriminate. }
  destruct (String.eqb method "equal_width").
  { intros H i j x y kx ky Hi Hj Hbi Hbj Hxy.
    apply cut_nbins_inv in H as [[_ ->]|(mn & mx & _ & _ & _ & H)].
    - exfalso. exact (Hnone i kx Hbi).
    - apply bins_to_cuts_inv in H as (bins' & -> & _).
      apply (map_cut_row_mono bins' false col i j x y kx ky); assumption. }
  destruct (String.eqb method "equal_frequency").
  { intros H i j x y kx ky Hi Hj Hbi Hbj Hxy. unfold qcut in H.
    destruct (n_bins <? 1)%Z; [discriminate|].
    destruct (dropna col) as [|v vals].
    - injection H as <-. exfalso. exact (Hnone i kx Hbi).
    - apply bins_to_cuts_inv in H as (bins' & -> & _).
      apply (map_cut_row_mono bins' true col i j x y kx ky); assumption. }
  destruct (String.eqb method "kmeans").
  { intros H i j x y kx ky Hi Hj Hbi Hbj Hxy.
    apply kbins_inv in H as (_ & Hna & [->|(inner & _ & ->)]).
    - rewrite list_lookup_fmap, Hi in Hbi.
      rewrite list_lookup_fmap, Hj in Hbj.
      simpl in Hbi, Hbj. injection Hbi as <-. injection Hbj as <-. lia.
    - pose proof (no_missing_dropna col Hna) as Hx.
      rewrite <- Hx in Hi, Hj. rewrite list_lookup_fmap in Hi, Hj.
      destruct (dropna col !! i) as [x'|] eqn:Ei; [|discriminate].
      destruct (dropna col !! j) as [y'|] eqn:Ej; [|discriminate].
      simpl in Hi, Hj. injection Hi as ->. injection Hj as ->.
      rewrite list_lookup_fmap, Ei in Hbi.
      rewrite list_lookup_fmap, Ej in Hbj.
      simpl in Hbi, Hbj. injection Hbi as <-. injection Hbj as <-.
      apply searchsorted_right_mono. exact Hxy. }
  destruct (String.eqb method "custom" && truthy custom_bins);
    [|discriminate].
  intros H i j x y kx ky Hi Hj Hbi Hbj Hxy. unfold cut_bins in H.
  destruct (is_monotonic_increasing _); [|discriminate].
  apply bins_to_cuts_inv in H as (bins' & -> & _).
  apply (map_cut_row_mono bins' false col i j x y kx ky); assumption.
Qed.

(** *** Equal frequency *)


Lemma cut_row_bound (bins : list Q) (il : bool) (x : Q) (k : Z) :
  bins <> [] -> cut_row bins il (Some x) = Some k ->
  (0 <= k <= len bins - 2)%Z.
Proof.
  intros Hne. unfold cut_row.
  pose proof (searchsorted_left_nonneg bins x) as Hnn.
  pose proof (searchsorted_left_le_len bins x) as Hle.
  assert (Hlen : (1 <= len bins)%Z).
  { unfold len. destruct bins; [contradiction | simpl; lia]. }
  destruct (il && Qeq_bool x (nth 0 bins 0)).
  - destruct ((1 =? len bins)%Z || (1 =? 0)%Z) eqn:E; [discriminate|].
    apply orb_false_iff in E as [E _]. apply Z.eqb_neq in E.
    intros [= <-]. lia.
  - destruct ((searchsorted_left bins x =? len bins)%Z
              || (searchsorted_left bins x =? 0)%Z) eqn:E; [discriminate|].
    apply orb_false_iff in E as [E1 E2]. apply Z.eqb_neq in E1, E2.
    intros [= <-]. lia.
Qed.


(** X16. A constant column without missing values is not clustered: with
    [n_bins >= 2] the k-means strategy returns bucket 0 for every row,
    whatever the number of bins. *)
Theorem kmeans_constant_column (data : frame) (feature : string)
    (col : series) (n_bins : Z) (custom_bins : option (list Q)) (v : Q) :
  data !! feature = Some col -> (2 <= n_bins)%Z -> col <> [] ->
  (forall i c, col !! i = Some c -> exists x, c = Some x /\ x == v) ->
  discretize_feature ar quantile_edge kmeans_centers data feature "kmeans"
      n_bins custom_bins
  = Ok (map (fun _ => Some 0%Z) col).
Proof.
  intros Hcol Hn Hne Hall. unfold discretize_feature, getitem. simpl.
  rewrite Hcol. cbn [mbind result_bind rbind]. unfold kbins_fit_transform.
  replace (n_bins <? 2)%Z with false by (symmetry; apply Z.ltb_ge; lia).
  replace (Z.of_nat (length col) =? 0)%Z with false.
  2:{ symmetry. apply Z.eqb_neq. destruct col; [contradiction|simpl; lia]. }
  assert (Hna : existsb isna col = false).
  { destruct (existsb isna col) eqn:E; [|reflexivity].
    apply existsb_exists in E as (c & Hc & Hnan).
    apply list_elem_of_In, list_elem_of_lookup in Hc as [i Hi].
    destruct (Hall i c Hi) as (x & -> & _). discriminate. }
  rewrite Hna.
  assert (Hvals : forall x, In x (dropna col) -> x == v).
  { intros x Hx. apply list_elem_of_In in Hx. unfold dropna in Hx.
    apply list_elem_of_omap in Hx as (c & Hc & Hcx).
    apply list_elem_of_lookup in Hc as [i Hi].
    destruct (Hall i c Hi) as (x' & -> & Hx'). simpl in Hcx.
    injection Hcx as <-. exact Hx'. }
  destruct (nanmin (dropna col)) as [mn|] eqn:Emin.
  - destruct (nanmax (dropna col)) as [mx|] eqn:Emax.
    + apply nanmin_spec in Emin as [Hmn _].
      apply nanmax_spec in Emax as [Hmx _].
      replace (Qeq_bool mn mx) with true; [reflexivity|].
      symmetry. apply Qeq_bool_iff.
      rewrite (Hvals mn Hmn), (Hvals mx Hmx). reflexivity.
    + destruct (dropna col); discriminate.
  - exfalso. pose proof (no_missing_dropna col Hna) as Hx.
    destruct (dropna col); [|discriminate].
    simpl in Hx. subst col. contradiction.
Qed.


(** X25. The k-means strategy needs at least as many rows as bins: on a
    column that is not constant and has fewer rows than [n_bins] it raises
    ValueError (the clustering refuses fewer samples than clusters). *)
Theorem kmeans_fewer_rows_than_bins (data : frame) (feature : string)
    (col : series) (n_bins : Z) (custom_bins : option (list Q))
    (mn mx : Q) :
  data !! feature = Some col ->
  nanmin (dropna col) = Some mn -> nanmax (dropna col) = Some mx ->
  mn < mx -> (Z.of_nat (length col) < n_bins)%Z ->
  discretize_feature ar quantile_edge kmeans_centers data feature "kmeans"
    n_bins custom_bins
  = Raise ValueError.
Proof.
  intros Hcol Hmin Hmax Hlt Hrows.
  unfold discretize_feature, getitem. simpl. rewrite Hcol.
  cbn [mbind result_bind rbind]. unfold kbins_fit_transform.
  destruct (n_bins <? 2)%Z; [reflexivity|].
  destruct (Z.of_nat (length col) =? 0)%Z; [reflexivity|].
  destruct (existsb isna col); [reflexivity|].
  rewrite Hmin, Hmax.
  replace (Qeq_bool mn mx) with false
    by (symmetry; apply Qeq_bool_false; lra).
  replace (Z.of_nat (length col) <? n_bins)%Z with true
    by (symmetry; apply Z.ltb_lt; lia).
  reflexivity.
Qed.

(** *** Equal width *)

(** C3 (as amended). Let E be the [n_bins + 1] edges that [pd.cut]
    computes in float64 from the minimum and the maximum of the column.
    Whenever equal-width discretization returns, each non-missing value
    holds a bucket id in [0, n_bins - 1] or the missing-marker.  When E is
    strictly increasing (and [n_bins >= 1]) it does return; a value [x]
    gets bucket [k] exactly when [E[k] < x <= E[k+1]], and the
    missing-marker exactly when it is not above the first edge or is above
    the last; the maximum of a column that is not constant gets bucket
    [n_bins - 1].  So the minimum gets bucket 0 only where the first edge
    lies below it, which rounding does not always grant, and the values
    of a constant column get the bucket of the 0.1% window that holds
    them, not bucket 0. *)
Theorem equal_width_buckets (data : frame) (feature : string)
    (col : series) (n_bins : Z) (mn mx : Q) :
  data !! feature = Some col ->
  nanmin (dropna col) = Some mn -> nanmax (dropna col) = Some mx ->
  (forall b : buckets,
     discretize_feature ar quantile_edge kmeans_centers data feature
       "equal_width" n_bins None = Ok b ->
     (1 <= n_bins)%Z /\
     forall (i : nat) (x : Q), col !! i = Some (Some x) ->
       b !! i = Some None \/
       exists k : Z, b !! i = Some (Some k) /\ (0 <= k <= n_bins - 1)%Z) /\
  ((1 <= n_bins)%Z ->
   strictly_increasing (nbins_to_bins ar mn mx (Z.to_nat n_bins)) ->
   exists b : buckets,
     discretize_feature ar quantile_edge kmeans_centers data feature
       "equal_width" n_bins None = Ok b /\
     forall (i : nat) (x : Q), col !! i = Some (Some x) ->
       (forall k : nat,
          b !! i = Some (Some (Z.of_nat k)) <->
          exists lo hi,
            nbins_to_bins ar mn mx (Z.to_nat n_bins) !! k = Some lo /\
            nbins_to_bins ar mn mx (Z.to_nat n_bins) !! S k = Some hi /\
            lo < x /\ x <= hi) /\
       (b !! i = Some None <->
        (exists lo,
           nbins_to_bins ar mn mx (Z.to_nat n_bins) !! O = Some lo /\
           x <= lo) \/
        (exists hi,
           last (nbins_to_bins ar mn mx (Z.to_nat n_bins)) = Some hi /\
           hi < x)) /\
       (mn < mx -> x == mx -> b !! i = Some (Some (n_bins - 1)%Z))).
Proof.
  intros Hcol Hmin Hmax. split.
  - intros b. unfold discretize_feature, getitem. simpl. rewrite Hcol.
    cbn [mbind result_bind rbind]. intros H.
    apply cut_nbins_inv in H as [[Hd _]|(mn' & mx' & Hn & _ & _ & H)].
    { rewrite Hd in Hmin. discriminate. }
    split; [exact Hn|]. intros i x Hi.
    assert (Hpos : (0 < Z.to_nat n_bins)%nat) by lia.
    pose proof (nbins_to_bins_length ar mn' mx' _ Hpos) as Hlen.
    set (edges := nbins_to_bins ar mn' mx' (Z.to_nat n_bins)) in *.
    assert (Hne : edges <> []).
    { intros E. rewrite E in Hlen. discriminate. }
    unfold bins_to_cuts in H.
    destruct ((len (unique edges) <? len edges)%Z
              && negb (len edges =? 2)%Z); [discriminate|].
    cbn [mbind result_bind rbind] in H. injection H as <-.
    rewrite list_lookup_fmap, Hi. cbn [fmap option_fmap option_map].
    destruct (cut_row edges false (Some x)) as [k|] eqn:Ek; [|left; auto].
    right. exists k. split; [reflexivity|].
    apply cut_row_bound in Ek; [|exact Hne]. unfold len in Ek. lia.
  - intros Hn Hinc.
    assert (Hpos : (0 < Z.to_nat n_bins)%nat) by lia.
    pose proof (nbins_to_bins_length ar mn mx _ Hpos) as Hlen.
    eexists. split.
    { apply (equal_width_unfold quantile_edge kmeans_centers ar data
               feature col n_bins None mn mx); assumption. }
    set (edges := nbins_to_bins ar mn mx (Z.to_nat n_bins)) in *.
    assert (Hne : edges <> []).
    { intros E. rewrite E in Hlen. discriminate. }
    intros i x Hi. rewrite list_lookup_fmap, Hi.
    cbn [fmap option_fmap option_map]. split; [|split].
    + intros k. rewrite <- (cut_row_interval edges x k Hinc).
      split; [intros [= H]; exact H | intros ->; reflexivity].
    + rewrite <- (cut_row_masked edges x Hne Hinc).
      split; [intros [= H]; exact H | intros ->; reflexivity].
    + intros Hlt Hx. f_equal.
      replace (n_bins - 1)%Z with (Z.of_nat (Z.to_nat n_bins - 1)) by lia.
      apply (cut_row_interval edges x _ Hinc).
      assert (Hlast : edges !! Z.to_nat n_bins = Some mx).
      { apply nbins_to_bins_last; [exact Hpos | lra]. }
      destruct (edges !! (Z.to_nat n_bins - 1)%nat) as [lo|] eqn:Elo.
      * exists lo, mx. split; [reflexivity|].
        replace (S (Z.to_nat n_bins - 1)) with (Z.to_nat n_bins) by lia.
        split; [exact Hlast|]. split; [|lra].
        rewrite Hx.
        apply (Hinc (Z.to_nat n_bins - 1)%nat (Z.to_nat n_bins));
          [lia | exact Elo | exact Hlast].
      * apply lookup_ge_None in Elo. lia.
Qed.

(** X26. The round trip of C6 under any arithmetic, float64 included:
    when the edges the equal-width strategy computes never decrease, the
    custom strategy on these edges gives the result of the equal-width
    strategy, a raised duplicate-edge error included. *)
Theorem custom_reproduces_equal_width_rounded (data : frame)
    (feature : string) (col : series) (n_bins n_bins' : Z) (mn mx : Q) :
  data !! feature = Some col -> (1 <= n_bins)%Z ->
  nanmin (dropna col) = Some mn -> nanmax (dropna col) = Some mx ->
  non_decreasing (nbins_to_bins ar mn mx (Z.to_nat n_bins)) ->
  discretize_feature ar quantile_edge kmeans_centers data feature "custom"
    n_bins' (Some (nbins_to_bins ar mn mx (Z.to_nat n_bins)))
  = discretize_feature ar quantile_edge kmeans_centers data feature
      "equal_width" n_bins None.
Proof.
  intros Hcol Hn Hmin Hmax Hmono.
  assert (Hpos : (0 < Z.to_nat n_bins)%nat) by lia.
  pose proof (nbins_to_bins_length ar mn mx _ Hpos) as Hlen.
  rewrite (custom_unfold ar quantile_edge kmeans_centers data feature col)
    by (try assumption; intros E; rewrite E in Hlen; discriminate).
  unfold cut_bins.
  rewrite (proj2 (monotonic_non_decreasing _) Hmono).
  unfold discretize_feature, getitem. simpl. rewrite Hcol.
  cbn [mbind result_bind rbind]. unfold cut_nbins.
  replace (n_bins <? 1)%Z with false by (symmetry; apply Z.ltb_ge; lia).
  destruct col as [|v col']; [discriminate|].
  cbn [length Z.of_nat Z.eqb]. rewrite Hmin, Hmax. reflexivity.
Qed.

End DiscretizerBuckets.

(** ** Batch discretization: contents, errors, shape *)

Section BatchFacts.

Import Discretizer.
Local Open Scope Q_scope.

Variable ar : arith.
Variable quantile_edge : list Q -> Z -> nat -> Q.
Variable kmeans_centers : list Q -> Z -> list Q.

Lemma discretize_feature_length (data : frame) (feature : string)
    (col : series) (method : string) (n_bins : Z)
    (custom_bins : option (list Q)) (b : buckets) :
  data !! feature = Some col ->
  discretize_feature ar quantile_edge kmeans_centers data feature method n_bins
      custom_bins
  = Ok b ->
  length b = length col.
Proof.
  intros Hcol. unfold discretize_feature, getitem. rewrite Hcol.
  cbn [mbind result_bind rbind].
  destruct (String.eqb method "equal_width").
  { intros H. apply cut_nbins_rows in H. tauto. }
  destruct (String.eqb method "equal_frequency").
  { intros H. apply qcut_rows in H. tauto. }
  destruct (String.eqb method "kmeans").
  { intros H. apply kbins_rows in H. tauto. }
  destruct (String.eqb method "custom" && truthy custom_bins);
    [|discriminate].
  intros H. apply cut_bins_rows in H. tauto.
Qed.

Lemma has_column_Some (df : frame) (f : string) :
  has_column df f = true <-> is_Some (df !! f).
Proof.
  unfold has_column. destruct (df !! f); split; intros H;
    try reflexivity; try discriminate; eauto.
  destruct H as [x H]. discriminate.
Qed.

(** The loop, seen from a configured feature that is a column. *)
Lemma batch_loop_written (data res : ref) (df : frame)
    (items : list (string * config)) (h h' : heap) :
  data <> res -> h !!! data = df ->
  batch_loop ar quantile_edge kmeans_centers data res items h = (h', Ok tt) ->
  NoDup items.*1 ->
  forall f c, (f, c) ∈ items -> is_Some (df !! f) ->
    exists b : buckets,
      discretize_with ar quantile_edge kmeans_centers df f c = Ok b /\
      (h' !!! res) !! f = Some (as_series b).
Proof.
  intros Hne. revert h.
  induction items as [|[f0 c0] rest IH]; intros h Hdf Hrun Hnd f c Hin Hf.
  - apply elem_of_nil in Hin. destruct Hin.
  - simpl in Hrun, Hnd. apply NoDup_cons in Hnd as [Hnotin Hnd].
    rewrite Hdf in Hrun.
    apply elem_of_cons in Hin as [[= -> ->]|Hin].
    + apply has_column_Some in Hf. rewrite Hf in Hrun.
      destruct (discretize_with ar quantile_edge kmeans_centers df f0 c0) as
          [col|e] eqn:Ed.
      * exists col. split; [reflexivity|].
        apply batch_loop_inv in Hrun as (_ & Hcols & _).
        rewrite (Hcols f0 Hnotin), setitem_total_eq.
        apply lookup_insert_eq.
      * injection Hrun as _ Hrun. discriminate.
    + destruct (has_column df f0).
      * destruct (discretize_with ar quantile_edge kmeans_centers df f0 c0) as
          [col|e].
        -- apply (IH (setitem res f0 (as_series col) h)); try assumption.
           rewrite setitem_total_ne by assumption. exact Hdf.
        -- injection Hrun as _ Hrun. discriminate.
      * apply (IH h); assumption.
Qed.

(** X18. When [batch_discretize] returns, every configured feature that
    is a column of the input holds, in the returned table, the result of
    [discretize_feature] on the input column with the entry's own
    configuration (feature names being the keys of a dictionary, each
    occurs once). *)
Theorem batch_discretize_written (data : ref)
    (features_config : list (string * config)) (h h' : heap) (df : frame)
    (res : ref) :
  h !! data = Some df ->
  batch_discretize ar quantile_edge kmeans_centers data features_config h =
      (h', Ok res) ->
  NoDup features_config.*1 ->
  forall f c, (f, c) ∈ features_config -> is_Some (df !! f) ->
    exists (b : buckets) (df' : frame),
      discretize_with ar quantile_edge kmeans_centers df f c = Ok b /\
      h' !! res = Some df' /\ df' !! f = Some (as_series b).
Proof.
  intros Hdata. unfold batch_discretize, df_copy.
  rewrite (lookup_total_correct h data df Hdata).
  set (r := fresh (dom h)).
  assert (Hne : data <> r).
  { intros Heq. pose proof (is_fresh (dom h)) as Hf. fold r in Hf.
    apply Hf. rewrite <- Heq. apply elem_of_dom. eauto. }
  destruct (batch_loop ar quantile_edge kmeans_centers data r features_config
              (<[r := df]> h)) as [h2 [[]|e]] eqn:Hloop;
    [|intros [= _ H]; discriminate].
  intros [= <- <-] Hnd f c Hin Hf.
  assert (Hread : <[r := df]> h !!! data = df).
  { rewrite lookup_total_insert_ne by (intros E; apply Hne; symmetry; exact E).
    apply (lookup_total_correct h data df Hdata). }
  destruct (batch_loop_written data r df features_config _ _ Hne Hread
              Hloop Hnd f c Hin Hf) as (b & Hb & Hw).
  apply batch_loop_inv in Hloop as (_ & _ & Hsome).
  destruct Hsome as [df' Hdf']; [rewrite lookup_insert_eq; eauto|].
  exists b, df'. split; [exact Hb|]. split; [exact Hdf'|].
  rewrite (lookup_total_correct _ _ _ Hdf') in Hw. exact Hw.
Qed.

(** The loop stops at the first configured column whose discretization
    fails. *)
Lemma batch_loop_raise (data res : ref) (df : frame)
    (items : list (string * config)) (h : heap) (e : exn) :
  data <> res -> h !!! data = df ->
  ((batch_loop ar quantile_edge kmeans_centers data res items h).2 = Raise e <->
   exists before f c after,
     items = before ++ (f, c) :: after /\ is_Some (df !! f) /\
     discretize_with ar quantile_edge kmeans_centers df f c = Raise e /\
     forall f' c', (f', c') ∈ before -> is_Some (df !! f') ->
       exists b, discretize_with ar quantile_edge kmeans_centers df f' c' = Ok
           b).
Proof.
  intros Hne. revert h.
  induction items as [|[f0 c0] rest IH]; intros h Hdf.
  - simpl. split; [discriminate|].
    intros (before & f & c & after & Heq & _). destruct before; discriminate.
  - simpl. rewrite Hdf.
    destruct (has_column df f0) eqn:Ecol.
    + destruct (discretize_with ar quantile_edge kmeans_centers df f0 c0) as
        [col|e0] eqn:Ed.
      * rewrite IH by (rewrite setitem_total_ne by assumption; exact Hdf).
        split.
        -- intros (before & f & c & after & -> & Hf & Hr & Hok).
           exists ((f0, c0) :: before), f, c, after.
           repeat split; try assumption.
           intros f' c' Hin Hf'.
           apply elem_of_cons in Hin as [[= -> ->]|Hin]; eauto.
        -- intros (before & f & c & after & Heq & Hf & Hr & Hok).
           destruct before as [|p before]; simpl in Heq.
           ++ injection Heq as <- <- <-. congruence.
           ++ injection Heq as <- ->.
              exists before, f, c, after. repeat split; try assumption.
              intros f' c' Hin. apply Hok. right. exact Hin.
      * simpl. split.
        -- intros [= <-]. exists [], f0, c0, rest.
           repeat split; try assumption.
           ++ apply has_column_Some. exact Ecol.
           ++ intros f' c' Hin. apply elem_of_nil in Hin. destruct Hin.
        -- intros (before & f & c & after & Heq & Hf & Hr & Hok).
           destruct before as [|p before]; simpl in Heq.
           ++ injection Heq as <- <- <-. congruence.
           ++ injection Heq as <- ->.
              destruct (Hok f0 c0) as [b Hb];
                [left | apply has_column_Some; exact Ecol | ].
              congruence.
    + rewrite IH by exact Hdf. split.
      * intros (before & f & c & after & -> & Hf & Hr & Hok).
        exists ((f0, c0) :: before), f, c, after.
        repeat split; try assumption.
        intros f' c' Hin Hf'.
        apply elem_of_cons in Hin as [[= -> ->]|Hin]; [|eauto].
        apply has_column_Some in Hf'. congruence.
      * intros (before & f & c & after & Heq & Hf & Hr & Hok).
        destruct before as [|p before]; simpl in Heq.
        -- injection Heq as <- <- <-.
           apply has_column_Some in Hf. congruence.
        -- injection Heq as <- ->.
           exists before, f, c, after. repeat split; try assumption.
           intros f' c' Hin. apply Hok. right. exact Hin.
Qed.

Lemma batch_discretize_unfold (data : ref)
    (features_config : list (string * config)) (h : heap) (df : frame) :
  h !! data = Some df ->
  fresh (dom h) <> data /\
  <[fresh (dom h) := df]> h !!! data = df /\
  batch_discretize ar quantile_edge kmeans_centers data features_config h
  = ((batch_loop ar quantile_edge kmeans_centers data (fresh (dom h))
      features_config
        (<[fresh (dom h) := df]> h)).1,
     (batch_loop ar quantile_edge kmeans_centers data (fresh (dom h))
         features_config
        (<[fresh (dom h) := df]> h)).2 ≫= fun _ => Ok (fresh (dom h))).
Proof.
  intros Hdata.
  assert (Hne : fresh (dom h) <> data).
  { intros Heq. pose proof (is_fresh (dom h)) as Hf.
    apply Hf. rewrite Heq. apply elem_of_dom. eauto. }
  split; [exact Hne|]. split.
  - rewrite lookup_total_insert_ne by exact Hne.
    apply (lookup_total_correct h data df Hdata).
  - unfold batch_discretize, df_copy.
    rewrite (lookup_total_correct h data df Hdata).
    destruct (batch_loop _ _ _ _ _ _ _). reflexivity.
Qed.

(** X19. [batch_discretize] fails exactly when the discretization of some
    configured feature that is a column fails, and then with the error of
    the first such feature in the order of the configuration; features
    that are not columns never make it fail. *)
Theorem batch_discretize_first_error (data : ref)
    (features_config : list (string * config)) (h : heap) (df : frame)
    (e : exn) :
  h !! data = Some df ->
  ((batch_discretize ar quantile_edge kmeans_centers data features_config h).2
      = Raise e <->
   exists before f c after,
     features_config = before ++ (f, c) :: after /\ is_Some (df !! f) /\
     discretize_with ar quantile_edge kmeans_centers df f c = Raise e /\
     forall f' c', (f', c') ∈ before -> is_Some (df !! f') ->
       exists b, discretize_with ar quantile_edge kmeans_centers df f' c' = Ok
           b).
Proof.
  intros Hdata.
  destruct (batch_discretize_unfold data features_config h df Hdata)
    as (Hne & Hread & ->).
  rewrite <- (batch_loop_raise data (fresh (dom h)) df features_config
                (<[fresh (dom h) := df]> h) e)
    by (try exact Hread; congruence).
  cbn [snd]. destruct (batch_loop _ _ _ _ _ _ _).2 as [[]|e']; simpl.
  - split; discriminate.
  - split; intros [= <-]; reflexivity.
Qed.

(** The shape of a table relative to the input: the same column names,
    and columns of the same length. *)
Lemma batch_loop_shape (data res : ref) (df : frame)
    (items : list (string * config)) (h h' : heap) (r : result ()) :
  data <> res -> h !!! data = df ->
  batch_loop ar quantile_edge kmeans_centers data res items h = (h', r) ->
  ((forall f, is_Some ((h !!! res) !! f) <-> is_Some (df !! f)) /\
   (forall f col col', df !! f = Some col -> (h !!! res) !! f = Some col' ->
      length col' = length col)) ->
  (forall f, is_Some ((h' !!! res) !! f) <-> is_Some (df !! f)) /\
  (forall f col col', df !! f = Some col -> (h' !!! res) !! f = Some col' ->
     length col' = length col).
Proof.
  intros Hne. revert h.
  induction items as [|[f0 c0] rest IH]; intros h Hdf Hrun Hshape.
  - simpl in Hrun. injection Hrun as <- <-. exact Hshape.
  - simpl in Hrun. rewrite Hdf in Hrun.
    destruct (has_column df f0) eqn:Ecol.
    + destruct (discretize_with ar quantile_edge kmeans_centers df f0 c0) as
        [b|e] eqn:Ed.
      * apply (IH (setitem res f0 (as_series b) h)); try assumption.
        { rewrite setitem_total_ne by assumption. exact Hdf. }
        destruct Hshape as [Hnames Hlens].
        apply has_column_Some in Ecol. destruct Ecol as [col0 Hcol0].
        rewrite setitem_total_eq. split.
        -- intros f. destruct (decide (f = f0)) as [->|Hf].
           ++ rewrite lookup_insert_eq, Hcol0. split; eauto.
           ++ rewrite lookup_insert_ne by congruence. apply Hnames.
        -- intros f col col' Hcol. destruct (decide (f = f0)) as [->|Hf].
           ++ rewrite lookup_insert_eq. intros [= <-].
              unfold as_series. rewrite length_map.
              eapply discretize_feature_length; eassumption.
           ++ rewrite lookup_insert_ne by congruence. apply Hlens. exact Hcol.
      * injection Hrun as <- <-. exact Hshape.
    + apply (IH h); assumption.
Qed.

(** X20. The table [batch_discretize] returns has the shape of its input:
    the same column names, and in every column as many rows as the input
    column has. *)
Theorem batch_discretize_shape (data : ref)
    (features_config : list (string * config)) (h h' : heap) (df : frame)
    (res : ref) :
  h !! data = Some df ->
  batch_discretize ar quantile_edge kmeans_centers data features_config h =
      (h', Ok res) ->
  exists df' : frame,
    h' !! res = Some df' /\
    (forall f, is_Some (df' !! f) <-> is_Some (df !! f)) /\
    (forall f col col', df !! f = Some col -> df' !! f = Some col' ->
       length col' = length col).
Proof.
  intros Hdata.
  destruct (batch_discretize_unfold data features_config h df Hdata)
    as (Hne & Hread & ->).
  destruct (batch_loop ar quantile_edge kmeans_centers data (fresh (dom h))
      features_config
              (<[fresh (dom h) := df]> h)) as [h2 r] eqn:Hloop.
  cbn [fst snd]. destruct r as [[]|e]; simpl; [|discriminate].
  intros [= <- <-].
  pose proof Hloop as Hinv.
  apply batch_loop_inv in Hinv as (_ & _ & Hsome).
  destruct Hsome as [df' Hdf']; [rewrite lookup_insert_eq; eauto|].
  exists df'. split; [exact Hdf'|].
  apply batch_loop_shape with (df := df) in Hloop;
    [ | congruence | exact Hread | ].
  - rewrite (lookup_total_correct _ _ _ Hdf') in Hloop. exact Hloop.
  - rewrite lookup_total_insert_eq. split; [tauto|].
    intros f col col' H1 H2. congruence.
Qed.

End BatchFacts.

(** ** The bin-count advisor: range of the result, degenerate columns *)

Section BinCountRange.

Import BinCountAdvisor.

Variable np_log2 : float -> float.
Variable py_pow : float -> float -> float.

(** X21. Whenever [suggest_bin_count] returns, the bin count it returns
    lies in [3, 20]. *)
Theorem suggest_bin_count_in_range (data_col : list float) (k : Z) :
  suggest_bin_count np_log2 py_pow data_col = Ok k -> (3 <= k <= 20)%Z.
Proof.
  unfold suggest_bin_count. intros Hrun.
  apply rbind_Ok in Hrun as (sturges & _ & Hrun).
  apply rbind_Ok in Hrun as (scott_bins & _ & Hrun).
  apply rbind_Ok in Hrun as (fd_bins & _ & Hrun).
  apply rbind_Ok in Hrun as (sqrt_bins & _ & Hrun).
  apply rbind_Ok in Hrun as (median_suggestion & _ & Hrun).
  injection Hrun as <-. lia.
Qed.

(** X22. On a column with fewer than two non-missing values (an empty
    column, a single value, one value among missing ones)
    [suggest_bin_count] raises instead of returning a bin count: the sample
    standard deviation is NaN and the Scott rule converts NaN to an
    integer. *)
Theorem suggest_bin_count_needs_two_values (data_col : list float) :
  (length (notna data_col) <= 1)%nat ->
  raises (suggest_bin_count np_log2 py_pow data_col).
Proof.
  intros Hlen. unfold suggest_bin_count. apply sturges_cases. intros sturges.
  apply raises_bind_l.
  rewrite (series_std_short data_col Hlen).
  rewrite fmul_nan_r, fdiv_nan_l, fdiv_nan_r, py_int_ceil_nan.
  exists ValueError. reflexivity.
Qed.

Lemma zero_range_zero_width (c : float) (s s' : bool) :
  fdiv (S754_zero s')
       (fdiv (fmul (fdiv (of_Z 7) (of_Z 2)) (S754_zero s)) c)
  = S754_nan.
Proof. destruct c as [sc|sc| |sc m e], s, s'; reflexivity. Qed.

(** X23. On a column whose sample standard deviation is zero and whose
    maximum and minimum do not differ, [suggest_bin_count] raises: the
    Scott rule divides the zero range by its zero width with no guard, and
    converts the NaN to an integer. *)
Theorem suggest_bin_count_zero_spread_raises (data_col : list float)
    (s s' : bool) :
  series_std data_col = S754_zero s ->
  fsub (series_max data_col) (series_min data_col) = S754_zero s' ->
  raises (suggest_bin_count np_log2 py_pow data_col).
Proof.
  intros Hstd Hrange. unfold suggest_bin_count.
  apply sturges_cases. intros sturges. apply raises_bind_l.
  rewrite Hstd, Hrange, zero_range_zero_width, py_int_ceil_nan.
  exists ValueError. reflexivity.
Qed.

End BinCountRange.

(** ** Closed instances: treatment and churn labels *)

Section LabelTransformInstances.

Import Discretizer LabelTransforms.
Local Open Scope Q_scope.

Lemma calculate_treatment_values_witness :
  single_table rates_table !! 0%nat = Some rates_table /\
  rates_table !! "ACR"%string = Some acr_column /\
  rates_table !! "Rate_Lag"%string = Some rate_lag_column /\
  exists (h' : heap) (res : ref) (d' : frame) (t : series),
    calculate_treatment 0%nat (single_table rates_table) = (h', Ok res) /\
    h' !! res = Some d' /\ d' !! "Treatment"%string = Some t /\
    forall (i : nat) (a b : option Q),
      acr_column !! i = Some a -> rate_lag_column !! i = Some b ->
      exists z : Z,
        t !! i = Some (Some (inject_Z z)) /\
        (z = 1 \/ z = -1 \/ z = 0)%Z /\
        (z = 1%Z <-> exists x y, a = Some x /\ b = Some y /\ y < x) /\
        (z = (-1)%Z <-> exists x y, a = Some x /\ b = Some y /\ x < y).
Proof.
  split; [reflexivity|]. split; [reflexivity|]. split; [reflexivity|].
  apply (calculate_treatment_values 0%nat (single_table rates_table)
           rates_table acr_column rate_lag_column); reflexivity.
Defined.

Lemma calculate_treatment_frame_witness :
  single_table rates_table !! 0%nat = Some rates_table /\
  rates_table !! "ACR"%string = Some acr_column /\
  rates_table !! "Rate_Lag"%string = Some rate_lag_column /\
  exists (h' : heap) (res : ref) (d' : frame),
    calculate_treatment 0%nat (single_table rates_table) = (h', Ok res) /\
    single_table rates_table !! res = None /\ h' !! res = Some d' /\
    (forall l, is_Some (single_table rates_table !! l) ->
       h' !! l = single_table rates_table !! l) /\
    d' !! "ACR"%string = None /\ d' !! "Rate_Lag"%string = None /\
    d' !! "ACR_diff"%string = None /\
    (forall c : string,
       c <> "ACR"%string -> c <> "Rate_Lag"%string ->
       c <> "ACR_diff"%string -> c <> "Treatment"%string ->
       d' !! c = rates_table !! c).
Proof.
  split; [reflexivity|]. split; [reflexivity|]. split; [reflexivity|].
  apply (calculate_treatment_frame 0%nat (single_table rates_table)
           rates_table acr_column rate_lag_column); reflexivity.
Defined.

Lemma calculate_treatment_key_error_witness :
  single_table lag_only_table !! 0%nat = Some lag_only_table /\
  (lag_only_table !! "ACR"%string = None \/
   lag_only_table !! "Rate_Lag"%string = None ->
   exists h' : heap,
     calculate_treatment 0%nat (single_table lag_only_table)
     = (h', Raise KeyError) /\
     forall l, is_Some (single_table lag_only_table !! l) ->
       h' !! l = single_table lag_only_table !! l) /\
  (is_Some (lag_only_table !! "ACR"%string) ->
   is_Some (lag_only_table !! "Rate_Lag"%string) ->
   exists (h' : heap) (res : ref),
     calculate_treatment 0%nat (single_table lag_only_table) = (h', Ok res)).
Proof.
  split; [reflexivity|].
  apply (calculate_treatment_key_error 0%nat (single_table lag_only_table)
           lag_only_table); reflexivity.
Defined.

Lemma calculate_churn_values_witness :
  single_table members_table !! 0%nat = Some members_table /\
  members_table !! "ChurnRate"%string = Some churn_rate_column /\
  members_table !! "Members"%string = Some members_column /\
  members_table !! "Members_Lag"%string = Some members_lag_column /\
  exists (h' : heap) (res : ref) (d' : frame) (churn : series),
    calculate_churn 0%nat (single_table members_table) = (h', Ok res) /\
    h' !! res = Some d' /\ d' !! "Churn"%string = Some churn /\
    (forall (i : nat) (x : option Q), churn_rate_column !! i = Some x ->
       exists z : Z,
         churn !! i = Some (Some (inject_Z z)) /\ (z = 1 \/ z = 0)%Z /\
         (z = 1%Z <-> exists v, x = Some v /\ 0 < v)) /\
    d' !! "ChurnRate"%string = None /\ d' !! "Members"%string = None /\
    d' !! "Members_Lag"%string = None /\
    (forall c : string,
       c <> "ChurnRate"%string -> c <> "Members"%string ->
       c <> "Members_Lag"%string -> c <> "Churn"%string ->
       d' !! c = members_table !! c).
Proof.
  split; [reflexivity|]. split; [reflexivity|]. split; [reflexivity|].
  split; [reflexivity|].
  apply (calculate_churn_values 0%nat (single_table members_table)
           members_table churn_rate_column members_column
           members_lag_column); reflexivity.
Defined.

Lemma calculate_churn_key_error_witness :
  single_table rate_only_table !! 0%nat = Some rate_only_table /\
  (rate_only_table !! "ChurnRate"%string = None \/
   rate_only_table !! "Members"%string = None \/
   rate_only_table !! "Members_Lag"%string = None ->
   exists h' : heap,
     calculate_churn 0%nat (single_table rate_only_table)
     = (h', Raise KeyError) /\
     forall l, is_Some (single_table rate_only_table !! l) ->
       h' !! l = single_table rate_only_table !! l) /\
  (is_Some (rate_only_table !! "ChurnRate"%string) ->
   is_Some (rate_only_table !! "Members"%string) ->
   is_Some (rate_only_table !! "Members_Lag"%string) ->
   exists (h' : heap) (res : ref),
     calculate_churn 0%nat (single_table rate_only_table) = (h', Ok res) /\
     forall l, is_Some (single_table rate_only_table !! l) ->
       h' !! l = single_table rate_only_table !! l).
Proof.
  split; [reflexivity|].
  apply (calculate_churn_key_error 0%nat (single_table rate_only_table)
           rate_only_table); reflexivity.
Defined.

End LabelTransformInstances.

(** ** Closed instances: label encoding *)

Section LabelEncodingInstances.

Import LabelEncoding.

(** The encoder on [cities] where [astype(str)] keeps a missing entry
    missing: classes [oslo, rome, NaN], codes 1, 2, 0. *)
Lemma label_encode_cities_run :
  label_encode_non_numeric no_numbers keeps_missing cities ∅
  = ({[ "city"%string := Numeric [Some 1%Q; Some 2%Q; Some 0%Q] ]},
     {[ "city"%string := [LStr "oslo"; LStr "rome"; LNaN] ]}).
Proof. vm_compute. reflexivity. Qed.

(** Where it writes text: classes [nan, oslo, rome], codes 2, 0, 1. *)
Example label_encode_cities_text :
  label_encode_non_numeric no_numbers writes_text cities ∅
  = ({[ "city"%string := Numeric [Some 2%Q; Some 0%Q; Some 1%Q] ]},
     {[ "city"%string := [LStr "nan"; LStr "oslo"; LStr "rome"] ]}).
Proof. vm_compute. reflexivity. Qed.

(** C10, counterexample. Where [astype(str)] keeps a missing entry
    missing, the missing entry of [cities] is encoded by the class NaN,
    the last of the fitted classes [oslo, rome, NaN]: no fitted class is
    the string "nan". *)
Lemma label_encode_missing_counterexample :
  cities !! "city"%string = Some (Object city_cells) /\
  city_cells !! 1%nat = Some CNaN /\
  (label_encode_non_numeric no_numbers keeps_missing cities ∅).2
    !! "city"%string = Some [LStr "oslo"; LStr "rome"; LNaN] /\
  (label_encode_non_numeric no_numbers keeps_missing cities ∅).1
    !! "city"%string = Some (Numeric [Some 1%Q; Some 2%Q; Some 0%Q]) /\
  ~ In (LStr "nan") [LStr "oslo"; LStr "rome"; LNaN].
Proof.
  rewrite label_encode_cities_run.
  split; [reflexivity|]. split; [reflexivity|].
  split; [reflexivity|]. split; [reflexivity|].
  simpl. intros [H|[H|[H|[]]]]; discriminate.
Qed.

Lemma label_encode_missing_is_category_witness :
  cities !! "city"%string = Some (Object city_cells) /\
  city_cells !! 1%nat = Some CNaN /\ is_missing CNaN /\
  exists (classes : list label) (codes : list (option Q)) (k : nat),
    (label_encode_non_numeric no_numbers keeps_missing cities ∅).2
      !! "city"%string = Some classes /\
    (label_encode_non_numeric no_numbers keeps_missing cities ∅).1
      !! "city"%string = Some (Numeric codes) /\
    codes !! 1%nat = Some (Some (inject_Z (Z.of_nat k))) /\
    classes !! k = Some (keeps_missing CNaN) /\
    (keeps_missing CNaN = LNaN -> S k = length classes).
Proof.
  split; [reflexivity|]. split; [reflexivity|]. split; [left; reflexivity|].
  apply (label_encode_missing_is_category no_numbers keeps_missing cities ∅
           "city" city_cells 1%nat CNaN);
    [reflexivity | reflexivity | left; reflexivity].
Defined.

Lemma label_encode_round_trip_witness :
  cities !! "city"%string = Some (Object city_cells) /\
  exists (classes : list label) (codes : list (option Q)),
    (label_encode_non_numeric no_numbers keeps_missing cities ∅).2
      !! "city"%string = Some classes /\
    (label_encode_non_numeric no_numbers keeps_missing cities ∅).1
      !! "city"%string = Some (Numeric codes) /\
    length codes = length city_cells /\
    forall (i : nat) (x : cell), city_cells !! i = Some x ->
      exists k : nat,
        codes !! i = Some (Some (inject_Z (Z.of_nat k))) /\
        classes !! k = Some (str_of_cell keeps_missing x).
Proof.
  split; [reflexivity|].
  apply (label_encode_round_trip no_numbers keeps_missing cities ∅ "city"
           city_cells).
  reflexivity.
Defined.

Lemma label_encode_same_code_witness :
  cities !! "city"%string = Some (Object city_cells) /\
  city_cells !! 0%nat = Some (CStr "rome") /\
  city_cells !! 1%nat = Some CNaN /\
  exists codes : list (option Q),
    (label_encode_non_numeric no_numbers keeps_missing cities ∅).1
      !! "city"%string = Some (Numeric codes) /\
    (codes !! 0%nat = codes !! 1%nat <->
     str_of_cell keeps_missing (CStr "rome")
     = str_of_cell keeps_missing CNaN).
Proof.
  split; [reflexivity|]. split; [reflexivity|]. split; [reflexivity|].
  apply (label_encode_same_code no_numbers keeps_missing cities ∅ "city"
           city_cells 0%nat 1%nat (CStr "rome") CNaN); reflexivity.
Defined.

Lemma label_encode_classes_witness :
  cities !! "city"%string = Some (Object city_cells) /\
  exists classes : list label,
    (label_encode_non_numeric no_numbers keeps_missing cities ∅).2
      !! "city"%string = Some classes /\
    (forall s : label,
       s ∈ classes <->
       exists x, x ∈ city_cells /\ str_of_cell keeps_missing x = s) /\
    (forall (k m : nat) (s t : label),
       classes !! k = Some s -> classes !! m = Some t ->
       ((k < m)%nat <-> label_lt s t)).
Proof.
  split; [reflexivity|].
  apply (label_encode_classes no_numbers keeps_missing cities ∅ "city"
           city_cells).
  reflexivity.
Defined.

Lemma label_encode_codes_ordered_witness :
  cities !! "city"%string = Some (Object city_cells) /\
  city_cells !! 0%nat = Some (CStr "rome") /\
  city_cells !! 1%nat = Some CNaN /\
  exists (codes : list (option Q)) (ki kj : nat),
    (label_encode_non_numeric no_numbers keeps_missing cities ∅).1
      !! "city"%string = Some (Numeric codes) /\
    codes !! 0%nat = Some (Some (inject_Z (Z.of_nat ki))) /\
    codes !! 1%nat = Some (Some (inject_Z (Z.of_nat kj))) /\
    ((ki < kj)%nat <->
     label_lt (str_of_cell keeps_missing (CStr "rome"))
       (str_of_cell keeps_missing CNaN)).
Proof.
  split; [reflexivity|]. split; [reflexivity|]. split; [reflexivity|].
  apply (label_encode_codes_ordered no_numbers keeps_missing cities ∅
           "city" city_cells 0%nat 1%nat (CStr "rome") CNaN); reflexivity.
Defined.

End LabelEncodingInstances.

(** ** Closed instances: buckets and batches *)

Section DiscretizerInstances.

Import Discretizer.
Local Open Scope Q_scope.

Lemma edges_1_3_5_increasing : strictly_increasing [1; 3; 5].
Proof.
  intros i j a b Hij Hi Hj.
  destruct i as [|[|[|i]]], j as [|[|[|j]]]; simpl in Hi, Hj;
    try discriminate; try lia;
    injection Hi as <-; injection Hj as <-; reflexivity.
Qed.

Lemma all_tens_constant (i : nat) (c : option Q) :
  all_tens !! i = Some c -> exists x, c = Some x /\ x == 10.
Proof.
  intros Hc. destruct i as [|[|[|[|i]]]]; simpl in Hc;
    try discriminate; injection Hc as <-; eexists; split; reflexivity.
Qed.

Lemma default_batch_run :
  batch_discretize binary64 linear_quantile no_kmeans 0%nat [("x"%string,
      Config None None None)]
    (one_table one_to_ten) = (after_batch, Ok 1%nat).
Proof. vm_compute. reflexivity. Qed.

Lemma custom_right_closed_intervals_witness :
  table_x with_null !! "x"%string = Some with_null /\
  [1; 3; 5] <> [] /\ strictly_increasing [1; 3; 5] /\
  exists b : buckets,
    discretize_feature binary64 linear_quantile no_kmeans (table_x with_null)
        "x" "custom" 5
      (Some [1; 3; 5]) = Ok b /\
    forall (i : nat) (x : Q), with_null !! i = Some (Some x) ->
      (forall k : nat,
         b !! i = Some (Some (Z.of_nat k)) <->
         exists lo hi, [1; 3; 5] !! k = Some lo /\
                       [1; 3; 5] !! S k = Some hi /\
                       lo < x /\ x <= hi) /\
      (b !! i = Some None <->
       (exists lo, [1; 3; 5] !! O = Some lo /\ x <= lo) \/
       (exists hi, last [1; 3; 5] = Some hi /\ hi < x)).
Proof.
  split; [reflexivity|]. split; [discriminate|].
  split; [exact edges_1_3_5_increasing|].
  apply (custom_right_closed_intervals binary64 linear_quantile no_kmeans
      (table_x with_null) "x"
           with_null 5 [1; 3; 5]);
    [reflexivity | discriminate | exact edges_1_3_5_increasing].
Defined.

Lemma discretize_feature_monotone_witness :
  table_x one_to_ten !! "x"%string = Some one_to_ten /\
  discretize_feature binary64 linear_quantile no_kmeans (table_x one_to_ten)
      "x" "equal_width" 5 None
  = Ok five_bins_of_ten /\
  forall (i j : nat) (x y : Q) (kx ky : Z),
    one_to_ten !! i = Some (Some x) -> one_to_ten !! j = Some (Some y) ->
    five_bins_of_ten !! i = Some (Some kx) ->
    five_bins_of_ten !! j = Some (Some ky) ->
    x <= y -> (kx <= ky)%Z.
Proof.
  assert (Hrun : discretize_feature binary64 linear_quantile no_kmeans (table_x
      one_to_ten) "x"
                   "equal_width" 5 None = Ok five_bins_of_ten)
    by (vm_compute; reflexivity).
  split; [reflexivity|]. split; [exact Hrun|].
  apply (discretize_feature_monotone binary64 linear_quantile no_kmeans
      (table_x one_to_ten) "x"
           one_to_ten "equal_width" 5 None five_bins_of_ten);
    [reflexivity | exact Hrun].
Defined.



Lemma kmeans_constant_column_witness :
  table_x all_tens !! "x"%string = Some all_tens /\ (2 <= 3)%Z /\
  all_tens <> [] /\
  (forall i c, all_tens !! i = Some c -> exists x, c = Some x /\ x == 10) /\
  discretize_feature binary64 linear_quantile no_kmeans (table_x all_tens) "x"
      "kmeans" 3 None
  = Ok (map (fun _ => Some 0%Z) all_tens).
Proof.
  split; [reflexivity|]. split; [lia|]. split; [discriminate|].
  split; [exact all_tens_constant|].
  apply (kmeans_constant_column binary64 linear_quantile no_kmeans (table_x
      all_tens) "x" all_tens
           3 None 10);
    [reflexivity | lia | discriminate | exact all_tens_constant].
Defined.


Lemma kmeans_fewer_rows_than_bins_witness :
  table_x one_to_three !! "x"%string = Some one_to_three /\
  nanmin (dropna one_to_three) = Some 1 /\
  nanmax (dropna one_to_three) = Some 3 /\
  1 < 3 /\ (Z.of_nat (length one_to_three) < 5)%Z /\
  discretize_feature binary64 linear_quantile no_kmeans
    (table_x one_to_three) "x" "kmeans" 5 None
  = Raise ValueError.
Proof.
  split; [reflexivity|]. split; [reflexivity|]. split; [reflexivity|].
  split; [reflexivity|]. split; [reflexivity|].
  apply (kmeans_fewer_rows_than_bins binary64 linear_quantile no_kmeans
           (table_x one_to_three) "x" one_to_three 5 None 1 3);
    reflexivity.
Defined.

Lemma increasing_edges_spec (bins : list Q) :
  increasing_edges bins = true -> strictly_increasing bins.
Proof.
  induction bins as [|a r IH]; intros H i j x y Hij Hx Hy.
  { rewrite lookup_nil in Hx. discriminate. }
  destruct r as [|b r'].
  { destruct j as [|j]; [lia|]. simpl in Hy. rewrite lookup_nil in Hy.
    discriminate. }
  cbn [increasing_edges] in H. apply andb_true_iff in H as [Hab Hr].
  apply Qltb_lt in Hab. specialize (IH Hr).
  destruct j as [|j]; [lia|]. simpl in Hy.
  destruct i as [|i]; simpl in Hx.
  - injection Hx as <-. destruct j as [|j].
    + simpl in Hy. injection Hy as <-. exact Hab.
    + assert (Hby : b < y) by (apply (IH O (S j)); [lia | reflexivity | exact
        Hy]).
      lra.
  - apply (IH i j); [lia | exact Hx | exact Hy].
Qed.

Lemma one_to_ten_edges_increasing :
  strictly_increasing (nbins_to_bins binary64 1 10 (Z.to_nat 5)).
Proof. apply increasing_edges_spec. vm_compute. reflexivity. Qed.

Lemma equal_width_buckets_witness :
  table_x one_to_ten !! "x"%string = Some one_to_ten /\
  nanmin (dropna one_to_ten) = Some 1 /\
  nanmax (dropna one_to_ten) = Some 10 /\
  strictly_increasing (nbins_to_bins binary64 1 10 (Z.to_nat 5)) /\
  (forall b : buckets,
     discretize_feature binary64 linear_quantile no_kmeans
       (table_x one_to_ten) "x" "equal_width" 5 None = Ok b ->
     (1 <= 5)%Z /\
     forall (i : nat) (x : Q), one_to_ten !! i = Some (Some x) ->
       b !! i = Some None \/
       exists k : Z, b !! i = Some (Some k) /\ (0 <= k <= 5 - 1)%Z) /\
  ((1 <= 5)%Z ->
   strictly_increasing (nbins_to_bins binary64 1 10 (Z.to_nat 5)) ->
   exists b : buckets,
     discretize_feature binary64 linear_quantile no_kmeans
       (table_x one_to_ten) "x" "equal_width" 5 None = Ok b /\
     forall (i : nat) (x : Q), one_to_ten !! i = Some (Some x) ->
       (forall k : nat,
          b !! i = Some (Some (Z.of_nat k)) <->
          exists lo hi,
            nbins_to_bins binary64 1 10 (Z.to_nat 5) !! k = Some lo /\
            nbins_to_bins binary64 1 10 (Z.to_nat 5) !! S k = Some hi /\
            lo < x /\ x <= hi) /\
       (b !! i = Some None <->
        (exists lo,
           nbins_to_bins binary64 1 10 (Z.to_nat 5) !! O = Some lo /\
           x <= lo) \/
        (exists hi,
           last (nbins_to_bins binary64 1 10 (Z.to_nat 5)) = Some hi /\
           hi < x)) /\
       (1 < 10 -> x == 10 -> b !! i = Some (Some (5 - 1)%Z))).
Proof.
  split; [reflexivity|]. split; [reflexivity|]. split; [reflexivity|].
  split; [exact one_to_ten_edges_increasing|].
  apply (equal_width_buckets binary64 linear_quantile no_kmeans
           (table_x one_to_ten) "x" one_to_ten 5 1 10); reflexivity.
Defined.

Lemma batch_discretize_written_witness :
  one_table one_to_ten !! 0%nat = Some (table_x one_to_ten) /\
  batch_discretize binary64 linear_quantile no_kmeans 0%nat [("x"%string,
      Config None None None)]
    (one_table one_to_ten) = (after_batch, Ok 1%nat) /\
  NoDup [("x"%string, Config None None None)].*1 /\
  forall f c, (f, c) ∈ [("x"%string, Config None None None)] ->
    is_Some (table_x one_to_ten !! f) ->
    exists (b : buckets) (df' : frame),
      discretize_with binary64 linear_quantile no_kmeans (table_x one_to_ten) f
          c = Ok b /\
      after_batch !! 1%nat = Some df' /\ df' !! f = Some (as_series b).
Proof.
  split; [reflexivity|]. split; [exact default_batch_run|].
  split; [apply NoDup_singleton|].
  apply (batch_discretize_written binary64 linear_quantile no_kmeans 0%nat
           [("x"%string, Config None None None)] (one_table one_to_ten)
           after_batch (table_x one_to_ten) 1%nat);
    [reflexivity | exact default_batch_run | apply NoDup_singleton].
Defined.

Lemma batch_discretize_first_error_witness :
  one_table one_to_ten !! 0%nat = Some (table_x one_to_ten) /\
  ((batch_discretize binary64 linear_quantile no_kmeans 0%nat
      [("x"%string, Config (Some "kmeans"%string) (Some 1%Z) None)]
      (one_table one_to_ten)).2 = Raise ValueError <->
   exists before f c after,
     [("x"%string, Config (Some "kmeans"%string) (Some 1%Z) None)]
     = before ++ (f, c) :: after /\
     is_Some (table_x one_to_ten !! f) /\
     discretize_with binary64 linear_quantile no_kmeans (table_x one_to_ten) f c
     = Raise ValueError /\
     forall f' c', (f', c') ∈ before ->
       is_Some (table_x one_to_ten !! f') ->
       exists b, discretize_with binary64 linear_quantile no_kmeans (table_x
           one_to_ten) f' c' = Ok b).
Proof.
  split; [reflexivity|].
  apply (batch_discretize_first_error binary64 linear_quantile no_kmeans 0%nat
           [("x"%string, Config (Some "kmeans"%string) (Some 1%Z) None)]
           (one_table one_to_ten) (table_x one_to_ten) ValueError).
  reflexivity.
Defined.

Lemma batch_discretize_shape_witness :
  one_table one_to_ten !! 0%nat = Some (table_x one_to_ten) /\
  batch_discretize binary64 linear_quantile no_kmeans 0%nat [("x"%string,
      Config None None None)]
    (one_table one_to_ten) = (after_batch, Ok 1%nat) /\
  exists df' : frame,
    after_batch !! 1%nat = Some df' /\
    (forall f, is_Some (df' !! f) <-> is_Some (table_x one_to_ten !! f)) /\
    (forall f col col', table_x one_to_ten !! f = Some col ->
       df' !! f = Some col' -> length col' = length col).
Proof.
  split; [reflexivity|]. split; [exact default_batch_run|].
  apply (batch_discretize_shape binary64 linear_quantile no_kmeans 0%nat
           [("x"%string, Config None None None)] (one_table one_to_ten)
           after_batch (table_x one_to_ten) 1%nat);
    [reflexivity | exact default_batch_run].
Defined.

Lemma with_null_edges_non_decreasing :
  non_decreasing (nbins_to_bins binary64 1 5 (Z.to_nat 2)).
Proof.
  apply monotonic_non_decreasing. vm_compute. reflexivity.
Qed.

Lemma custom_reproduces_equal_width_rounded_witness :
  table_x with_null !! "x"%string = Some with_null /\
  (1 <= 2)%Z /\
  nanmin (dropna with_null) = Some 1 /\
  nanmax (dropna with_null) = Some 5 /\
  non_decreasing (nbins_to_bins binary64 1 5 (Z.to_nat 2)) /\
  discretize_feature binary64 linear_quantile no_kmeans (table_x with_null)
    "x" "custom" 5 (Some (nbins_to_bins binary64 1 5 (Z.to_nat 2)))
  = discretize_feature binary64 linear_quantile no_kmeans
      (table_x with_null) "x" "equal_width" 2 None.
Proof.
  split; [reflexivity|]. split; [lia|].
  split; [reflexivity|]. split; [reflexivity|].
  split; [exact with_null_edges_non_decreasing|].
  apply (custom_reproduces_equal_width_rounded binary64 linear_quantile
           no_kmeans (table_x with_null) "x" with_null 2 5 1 5);
    [reflexivity | lia | reflexivity | reflexivity
    | exact with_null_edges_non_decreasing].
Defined.

End DiscretizerInstances.

(** ** Closed instances: the bin-count advisor *)

Section BinCountInstances.

Import BinCountAdvisor.

Lemma suggest_bin_count_in_range_witness :
  suggest_bin_count (const_log2 3) (const_pow 2) one_to_eight = Ok 3%Z /\
  (3 <= 3 <= 20)%Z.
Proof.
  assert (Hrun : suggest_bin_count (const_log2 3) (const_pow 2) one_to_eight
                 = Ok 3%Z) by (vm_compute; reflexivity).
  split; [exact Hrun|].
  apply (suggest_bin_count_in_range (const_log2 3) (const_pow 2)
           one_to_eight 3 Hrun).
Defined.

Lemma suggest_bin_count_needs_two_values_witness :
  (length (notna five_and_missing) <= 1)%nat /\
  raises (suggest_bin_count (const_log2 1) (const_pow 1) five_and_missing).
Proof.
  split; [vm_compute; lia|].
  apply (suggest_bin_count_needs_two_values (const_log2 1) (const_pow 1)
           five_and_missing).
  vm_compute. lia.
Defined.

Lemma suggest_bin_count_zero_spread_raises_witness :
  series_std ten_four_times = S754_zero false /\
  fsub (series_max ten_four_times) (series_min ten_four_times)
  = S754_zero false /\
  raises (suggest_bin_count (const_log2 2) (const_pow 1) ten_four_times).
Proof.
  split; [exact ten_four_times_std|]. split; [exact ten_four_times_range|].
  apply (suggest_bin_count_zero_spread_raises (const_log2 2) (const_pow 1)
           ten_four_times false false);
    [exact ten_four_times_std | exact ten_four_times_range].
Defined.

End BinCountInstances.
